(** * Text_To_SQL: the SQL sanitizer, the schema cache and the query route

    A shallow embedding of the backend (Express server) of the repository:
    [sanitizeSql], [loadSchema], [buildSql] and the [POST /api/query]
    handler, together with the properties the specification states about
    them.

    Strings.  A JavaScript string is a sequence of UTF-16 code units.  The
    development models the strings whose code units lie in U+0000..U+00FF
    (Latin-1) as lists of [ascii] (one [ascii] = one code unit).  On that
    range the builtins used by the code are the functions given below:
    [String.prototype.trim] strips TAB, LF, VT, FF, CR, SP and NBSP,
    [String.prototype.toLowerCase] is the code-unit-wise map that sends
    A-Z and U+00C0..U+00DE (U+00D7 excepted) 32 places up, and the regular
    expression class [\w] is [A-Za-z0-9_].  String literals in this file
    are ASCII only. *)

From Stdlib Require Import List Bool Arith ZArith Lia Ascii String.
Import ListNotations.

(** ** JavaScript strings *)

Module Js.

Definition jsstring := list ascii.

Definition lit (s : string) : jsstring := list_ascii_of_string s.

Definition code (c : ascii) : nat := nat_of_ascii c.

Definition jsstring_eqb (a b : jsstring) : bool :=
  if list_eq_dec ascii_dec a b then true else false.

(** [WhiteSpace] and [LineTerminator] code units below U+0100. *)
Definition is_space (c : ascii) : bool :=
  let n := code c in
  ((9 <=? n) && (n <=? 13)) || (n =? 32) || (n =? 160).

Fixpoint trimStart (s : jsstring) : jsstring :=
  match s with
  | c :: s' => if is_space c then trimStart s' else s
  | [] => []
  end.

Fixpoint trimEnd (s : jsstring) : jsstring :=
  match s with
  | [] => []
  | c :: s' =>
      match trimEnd s' with
      | [] => if is_space c then [] else [c]
      | r => c :: r
      end
  end.

Definition trim (s : jsstring) : jsstring := trimEnd (trimStart s).

Definition lower_char (c : ascii) : ascii :=
  let n := code c in
  if ((65 <=? n) && (n <=? 90))
     || ((192 <=? n) && (n <=? 222) && negb (n =? 215))
  then ascii_of_nat (n + 32) else c.

Definition toLowerCase (s : jsstring) : jsstring := map lower_char s.

Fixpoint startsWith (p s : jsstring) : bool :=
  match p, s with
  | [], _ => true
  | a :: p', b :: s' => Ascii.eqb a b && startsWith p' s'
  | _ :: _, [] => false
  end.

Definition endsWith (p s : jsstring) : bool := startsWith (rev p) (rev s).

(** [s.includes(p)]: [p] occurs at some position of [s]. *)
Fixpoint includes (p s : jsstring) : bool :=
  startsWith p s ||
  match s with
  | [] => false
  | _ :: s' => includes p s'
  end.

(** [s.split(sep)] for a separator of one code unit. *)
Fixpoint split (sep : ascii) (s : jsstring) : list jsstring :=
  match s with
  | [] => [[]]
  | c :: s' =>
      if Ascii.eqb c sep then [] :: split sep s'
      else match split sep s' with
           | f :: fs => (c :: f) :: fs
           | [] => [[c]]
           end
  end.

(** [s.slice(0, -1)]. *)
Definition slice_0_m1 (s : jsstring) : jsstring := removelast s.

(** [Array.prototype.join]. *)
Fixpoint join (sep : jsstring) (l : list jsstring) : jsstring :=
  match l with
  | [] => []
  | [x] => x
  | x :: rest => x ++ sep ++ join sep rest
  end.

(** Truthiness of a string: the empty string is falsy. *)
Definition truthy_string (s : jsstring) : bool :=
  match s with [] => false | _ :: _ => true end.

End Js.

Import Js.

Coercion Js.lit : string >-> Js.jsstring.

Open Scope string_scope.
Open Scope list_scope.

(** ** JavaScript values, as far as [typeof] and truthiness see them *)

#[warnings="-register-all"]
Inductive value : Type :=
| VUndefined
| VNull
| VBool (b : bool)
| VNum (n : Z)   (* numbers are only tested for truthiness; integers suffice *)
| VStr (s : jsstring)
| VArr (items : list value)
| VObj (fields : list (jsstring * value)).

Definition truthy (v : value) : bool :=
  match v with
  | VUndefined | VNull => false
  | VBool b => b
  | VNum n => negb (n =? 0)%Z
  | VStr s => truthy_string s
  | VArr _ | VObj _ => true
  end.

Definition typeof_is_string (v : value) : bool :=
  match v with VStr _ => true | _ => false end.

(** Property access [v.name] for the names the server reads ([question],
    [sql], [notes]), none of which is a builtin property: the own field of
    an object ([fields] lists each own property once), [undefined] on every
    other value that admits property access.  [None] stands for the
    [TypeError] raised on [null] and [undefined]. *)
Fixpoint assoc (k : jsstring) (fields : list (jsstring * value)) : value :=
  match fields with
  | [] => VUndefined
  | (k', v) :: rest => if jsstring_eqb k k' then v else assoc k rest
  end.

Definition get_prop (v : value) (name : jsstring) : option value :=
  match v with
  | VUndefined | VNull => None
  | VObj fields => Some (assoc name fields)
  | _ => Some VUndefined
  end.

(** ** Regular expressions: the fragment used by [sanitizeSql]

    A backtracking matcher in continuation-passing style.  The
    continuation receives the code unit before the current position and
    the rest of the input, which is what the assertion [\b] inspects. *)

Module Regex.

Inductive regex : Type :=
| Boundary                      (* \b *)
| Chars (w : jsstring)          (* a literal run of code units *)
| Alt (r1 r2 : regex)           (* r1|r2 *)
| Seq (r1 r2 : regex)           (* r1r2 *)
| Never.                        (* the empty alternation *)

Definition is_word_char (c : ascii) : bool :=
  let n := code c in
  (((48 <=? n) && (n <=? 57)) || ((65 <=? n) && (n <=? 90))
   || ((97 <=? n) && (n <=? 122)) || (n =? 95))%nat.

Definition word_before (prev : option ascii) : bool :=
  match prev with Some c => is_word_char c | None => false end.

Definition word_after (s : jsstring) : bool :=
  match s with c :: _ => is_word_char c | [] => false end.

Definition at_boundary (prev : option ascii) (s : jsstring) : bool :=
  xorb (word_before prev) (word_after s).

(** Consume the literal [w] at the head of [s]. *)
Fixpoint consume (w : jsstring) (prev : option ascii) (s : jsstring)
  : option (option ascii * jsstring) :=
  match w, s with
  | [], _ => Some (prev, s)
  | a :: w', b :: s' => if Ascii.eqb a b then consume w' (Some b) s' else None
  | _ :: _, [] => None
  end.

Fixpoint matches (r : regex) (prev : option ascii) (s : jsstring)
         (k : option ascii -> jsstring -> bool) : bool :=
  match r with
  | Boundary => at_boundary prev s && k prev s
  | Chars w =>
      match consume w prev s with
      | Some (prev', s') => k prev' s'
      | None => false
      end
  | Alt r1 r2 => matches r1 prev s k || matches r2 prev s k
  | Seq r1 r2 => matches r1 prev s (fun prev' s' => matches r2 prev' s' k)
  | Never => false
  end.

(** Try every start position, left to right. *)
Fixpoint search (r : regex) (prev : option ascii) (s : jsstring) : bool :=
  matches r prev s (fun _ _ => true) ||
  match s with
  | [] => false
  | c :: s' => search r (Some c) s'
  end.

(** [r.test(s)] for a regular expression without flags. *)
Definition test (r : regex) (s : jsstring) : bool := search r None s.

Definition alternation (ws : list jsstring) : regex :=
  fold_right (fun w r => Alt (Chars w) r) Never ws.

End Regex.

(** ** The sanitizer *)

Inductive result (E A : Type) : Type :=
| Ok (a : A)
| Err (e : E).
Arguments Ok {E A} a.
Arguments Err {E A} e.

(** One constructor per [throw] of [sanitizeSql], in source order. *)
Inductive sanitize_error : Type :=
| SqlMissing
| NotASelect
| MultipleStatements
| ForbiddenOperation
| CommentsNotAllowed.

Definition error_message (e : sanitize_error) : jsstring :=
  match e with
  | SqlMissing => "SQL missing."
  | NotASelect => "Only SELECT queries are allowed."
  | MultipleStatements => "Multiple statements are not allowed."
  | ForbiddenOperation => "Query contains a forbidden operation."
  | CommentsNotAllowed => "Comments are not allowed in generated SQL."
  end.

Definition banned_words : list jsstring :=
  [ lit "insert"; lit "update"; lit "delete"; lit "alter"; lit "drop";
    lit "truncate"; lit "create"; lit "grant"; lit "revoke"; lit "comment";
    lit "copy"; lit "call" ].

(** [/\b(insert|update|...|call)\b/] *)
Definition banned : Regex.regex :=
  Regex.Seq Regex.Boundary
    (Regex.Seq (Regex.alternation banned_words) Regex.Boundary).

(** [trimmed.split(";").filter((s) => s.trim())] *)
Definition statements (trimmed : jsstring) : list jsstring :=
  filter (fun s => truthy_string (trim s)) (split ";"%char trimmed).

Definition sanitizeSql (sql : value) : result sanitize_error jsstring :=
  if negb (truthy sql) || negb (typeof_is_string sql) then Err SqlMissing
  else
    match sql with
    | VStr s =>
        let trimmed := trim s in
        let lowered := toLowerCase trimmed in
        if negb (startsWith "select" lowered) then Err NotASelect
        else if (1 <? List.length (statements trimmed))%nat
        then Err MultipleStatements
        else if Regex.test banned lowered then Err ForbiddenOperation
        else if includes "--" lowered || includes "/*" lowered
        then Err CommentsNotAllowed
        else Ok (if endsWith ";" trimmed then slice_0_m1 trimmed else trimmed)
    | _ => Err SqlMissing
    end.

(** ** The JavaScript [Map]: insertion-ordered, one entry per key *)

Module JsMap.

Definition t (V : Type) : Type := list (jsstring * V).

Fixpoint get {V} (k : jsstring) (m : t V) : option V :=
  match m with
  | [] => None
  | (k', v) :: rest => if jsstring_eqb k k' then Some v else get k rest
  end.

Definition has {V} (k : jsstring) (m : t V) : bool :=
  match get k m with Some _ => true | None => false end.

(** [set] overwrites in place when the key is present and appends
    otherwise, so iteration follows first insertion. *)
Fixpoint set {V} (k : jsstring) (v : V) (m : t V) : t V :=
  match m with
  | [] => [(k, v)]
  | (k', v') :: rest =>
      if jsstring_eqb k k' then (k', v) :: rest else (k', v') :: set k v rest
  end.

End JsMap.

(** ** The world the server runs in

    One request is followed at a time: the state is the schema cache, and
    a trace records the calls made to the connection pool, to the model
    and to the console.  Interleavings of concurrent requests are not
    modelled. *)

Definition SCHEMA_CACHE_MS : Z := 5 * 60 * 1000.

(** The two module-level variables [cachedSchema] ([None] is [null]) and
    [cachedSchemaLoadedAt]. *)
Record cache : Type := {
  cachedSchema : option jsstring;
  cachedSchemaLoadedAt : Z
}.

Definition initial_cache : cache :=
  {| cachedSchema := None; cachedSchemaLoadedAt := 0 |}.

(** Calls that leave the process, in the order they are made. *)
Inductive event : Type :=
| PoolConnect                       (* pool.connect() *)
| ColumnsQuery                      (* client.query(information_schema.columns ...) *)
| CountsQuery                       (* client.query(pg_class ...) *)
| ClientRelease                     (* client.release() *)
| ChatCompletion (schema question : jsstring)
                                    (* openai.chat.completions.create *)
| PoolQuery (sql : jsstring)        (* pool.query(sql) *)
| ConsoleError (message : jsstring). (* console.error(err) *)

Record world : Type := {
  cached : cache;
  trace : list event
}.

(** A row of the column listing and a row of the row-count listing. *)
Record column_row : Type := {
  col_table_schema : jsstring;
  col_table_name : jsstring;
  column_name : jsstring;
  data_type : jsstring
}.

Record count_row : Type := {
  cnt_table_schema : jsstring;
  cnt_table_name : jsstring;
  est_rows : option jsstring    (* bigint arrives as text; [None] is null *)
}.

Record query_result : Type := {
  rows : list value;
  rowCount : value
}.

(** What the collaborators answer during one request.  A rejected promise
    is [Err] with the message of the error. *)
Record env : Type := {
  date_now : Z;
  pool_connect : result jsstring unit;
  columns_query : result jsstring (list column_row);
  counts_query : result jsstring (list count_row);
  chat_completion : result jsstring (option jsstring);
      (* completion.choices[0]?.message?.content, [None] when absent *)
  json_parse : jsstring -> option value;
  pool_query : jsstring -> result jsstring query_result
}.

(** State and exceptions: a computation reads and writes the world and
    either returns or throws an error carrying a message. *)
Definition M (A : Type) : Type := world -> result jsstring A * world.

Definition ret {A} (a : A) : M A := fun w => (Ok a, w).

Definition throw {A} (msg : jsstring) : M A := fun w => (Err msg, w).

Definition bind {A B} (m : M A) (k : A -> M B) : M B :=
  fun w =>
    match m w with
    | (Ok a, w') => k a w'
    | (Err msg, w') => (Err msg, w')
    end.

Notation "x <- m ;; k" := (bind m (fun x => k))
  (at level 61, m at next level, right associativity).
Notation "m ;;; k" := (bind m (fun _ => k))
  (at level 61, right associativity).

Definition emit (ev : event) : M unit :=
  fun w => (Ok tt, {| cached := cached w; trace := trace w ++ [ev] |}).

Definition read_cache : M cache := fun w => (Ok (cached w), w).

Definition write_cache (c : cache) : M unit :=
  fun w => (Ok tt, {| cached := c; trace := trace w |}).

Definition settle {A} (r : result jsstring A) : M A :=
  fun w => (r, w).

(** [try { body } finally { fin }] where [fin] does not throw. *)
Definition try_finally {A} (body : M A) (fin : M unit) : M A :=
  fun w =>
    match body w with
    | (r, w') => (r, snd (fin w'))
    end.

(** ** The schema snapshotter *)

Definition table_key (schema table : jsstring) : jsstring :=
  schema ++ lit "." ++ table.

Definition countMap_of (counts : list count_row)
  : JsMap.t (option jsstring) :=
  fold_left
    (fun m row =>
       JsMap.set (table_key (cnt_table_schema row) (cnt_table_name row))
                 (est_rows row) m)
    counts [].

Record table_entry : Type := {
  columns : list jsstring;
  meta : jsstring
}.

Definition add_column (countMap : JsMap.t (option jsstring))
           (tableMap : JsMap.t table_entry) (row : column_row)
  : JsMap.t table_entry :=
  let key := table_key (col_table_schema row) (col_table_name row) in
  let tableMap1 :=
    if negb (JsMap.has key tableMap) then
      let meta :=
        match JsMap.get key countMap with
        | Some (Some est) => lit " (est_rows ~" ++ est ++ lit ")"
        | _ => []
        end in
      JsMap.set key {| columns := []; meta := meta |} tableMap
    else tableMap in
  match JsMap.get key tableMap1 with
  | Some entry =>
      JsMap.set key
        {| columns := columns entry
                        ++ [column_name row ++ lit " (" ++ data_type row ++ lit ")"];
           meta := meta entry |}
        tableMap1
  | None => tableMap1
  end.

Definition tableMap_of (countMap : JsMap.t (option jsstring))
           (cols : list column_row) : JsMap.t table_entry :=
  fold_left (add_column countMap) cols [].

Definition schema_line (kv : jsstring * table_entry) : jsstring :=
  fst kv ++ meta (snd kv) ++ lit ": " ++ join (lit ", ") (columns (snd kv)).

Definition newline : jsstring := ["010"%char].

Definition render_schema (cols : list column_row) (counts : list count_row)
  : jsstring :=
  join newline (map schema_line (tableMap_of (countMap_of counts) cols)).

(** [Promise.all] over the two queries: both are issued, then the first
    rejection, if any, is rethrown. *)
Definition metadata_queries (e : env)
  : M (list column_row * list count_row) :=
  emit ColumnsQuery ;;;
  emit CountsQuery ;;;
  cols <- settle (columns_query e) ;;
  counts <- settle (counts_query e) ;;
  ret (cols, counts).

Definition loadSchema (e : env) : M jsstring :=
  let now := date_now e in
  let refresh : M jsstring :=
    emit PoolConnect ;;;
    settle (pool_connect e) ;;;
    try_finally
      (r <- metadata_queries e ;;
       let schema := render_schema (fst r) (snd r) in
       write_cache {| cachedSchema := Some schema;
                      cachedSchemaLoadedAt := now |} ;;;
       ret schema)
      (emit ClientRelease) in
  c <- read_cache ;;
  match cachedSchema c with
  | Some s =>
      if truthy_string s && (now - cachedSchemaLoadedAt c <? SCHEMA_CACHE_MS)%Z
      then ret s
      else refresh
  | None => refresh
  end.

(** ** SQL generation *)

(** [openai.chat.completions.create] with the system prompt filled with
    [schema] and the user message [question]. *)
Definition create_completion (e : env) (schema question : jsstring)
  : M (option jsstring) :=
  emit (ChatCompletion schema question) ;;;
  settle (chat_completion e).

Definition buildSql (e : env) (question : jsstring) : M (jsstring * value) :=
  schema <- loadSchema e ;;
  content <- create_completion e schema question ;;
  match content with
  | None => throw (lit "No response from model.")
  | Some content =>
      if negb (truthy_string content)
      then throw (lit "No response from model.")
      else
        match json_parse e content with
        | None => throw (lit "Model returned invalid JSON.")
        | Some parsed =>
            match get_prop parsed (lit "sql") with
            | None =>
                throw (lit "Cannot read properties of null (reading 'sql')")
            | Some parsed_sql =>
                if negb (truthy parsed_sql)
                then throw (lit "Model did not return SQL.")
                else
                  match sanitizeSql parsed_sql with
                  | Err err => throw (error_message err)
                  | Ok sql =>
                      match get_prop parsed (lit "notes") with
                      | None =>
                          throw (lit "Cannot read properties of null (reading 'notes')")
                      | Some parsed_notes =>
                          ret (sql, if truthy parsed_notes then parsed_notes
                                    else VStr [])
                      end
                  end
            end
        end
  end.

(** ** The HTTP surface *)

Inductive response_body : Type :=
| HealthBody                                         (* {ok: true} *)
| SchemaBody (schema : jsstring)                     (* {schema} *)
| ErrorBody (error : jsstring)                       (* {error} *)
| QueryBody (sql : jsstring) (notes : value)
            (result_rows : list value) (result_rowCount : value).
                                     (* {sql, notes, rows, rowCount} *)

Record response : Type := {
  status : nat;
  body : response_body
}.

(** A route handler always produces a response. *)
Definition handler : Type := world -> response * world.

Definition respond (code : nat) (b : response_body) : handler :=
  fun w => ({| status := code; body := b |}, w).

Definition console_error (msg : jsstring) (k : handler) : handler :=
  fun w => k {| cached := cached w; trace := trace w ++ [ConsoleError msg] |}.

(** [try { ... } catch (err) { ... }] around the body of a handler. *)
Definition try_catch (m : M response) (on_error : jsstring -> handler)
  : handler :=
  fun w =>
    match m w with
    | (Ok r, w') => (r, w')
    | (Err msg, w') => on_error msg w'
    end.

Definition get_health : handler := respond 200 HealthBody.

Definition get_api_schema (e : env) : handler :=
  try_catch
    (schema <- loadSchema e ;;
     ret {| status := 200; body := SchemaBody schema |})
    (fun msg =>
       console_error msg
         (respond 500 (ErrorBody (lit "Failed to load schema")))).

(** [const { question } = req.body || {}] *)
Definition question_of (req_body : value) : value :=
  if truthy req_body then
    match get_prop req_body (lit "question") with
    | Some q => q
    | None => VUndefined
    end
  else VUndefined.

Definition post_api_query (e : env) (req_body : value) : handler :=
  let question := question_of req_body in
  match question with
  | VStr q =>
      if negb (truthy question) || negb (typeof_is_string question)
         || negb (truthy_string (trim q))
      then respond 400 (ErrorBody (lit "Question is required"))
      else
        try_catch
          (r <- buildSql e (trim q) ;;
           emit (PoolQuery (fst r)) ;;;
           result <- settle (pool_query e (fst r)) ;;
           ret {| status := 200;
                  body := QueryBody (fst r) (snd r)
                                    (rows result) (rowCount result) |})
          (fun msg => console_error msg (respond 400 (ErrorBody msg)))
  | _ => respond 400 (ErrorBody (lit "Question is required"))
  end.

(** ** Start-up of the server *)

(** What the server keeps of the environment: the port (the variable, or
    the number 4000), the two required secrets, the model name and the
    [ssl] option of the pool ([Some false] is [{ rejectUnauthorized:
    false }], [None] is [undefined]). *)
Record config : Type := {
  PORT : value;
  OPENAI_API_KEY : jsstring;
  DATABASE_URL : jsstring;
  OPENAI_MODEL : jsstring;
  ssl : option bool
}.

(** Truthiness of [process.env.NAME]: set, and not the empty string. *)
Definition env_truthy (v : option jsstring) : bool :=
  match v with
  | Some s => truthy_string s
  | None => false
  end.

(** The top level of the server up to the creation of the pool.  [Err]
    carries the line written by [console.error] and the code given to
    [process.exit]. *)
Definition startup (getenv : jsstring -> option jsstring)
  : result (jsstring * nat) config :=
  let port :=
    match getenv (lit "PORT") with
    | Some p => if truthy_string p then VStr p else VNum 4000
    | None => VNum 4000
    end in
  let api_key := getenv (lit "OPENAI_API_KEY") in
  let database_url := getenv (lit "DATABASE_URL") in
  let model :=
    match getenv (lit "OPENAI_MODEL") with
    | Some m => if truthy_string m then m else lit "gpt-4o-mini"
    | None => lit "gpt-4o-mini"
    end in
  match api_key with
  | Some key =>
      if negb (truthy_string key)
      then Err (lit "Missing OPENAI_API_KEY in environment.", 1)
      else
        match database_url with
        | Some url =>
            if negb (truthy_string url)
            then Err (lit "Missing DATABASE_URL in environment.", 1)
            else
              Ok {| PORT := port;
                    OPENAI_API_KEY := key;
                    DATABASE_URL := url;
                    OPENAI_MODEL := model;
                    ssl :=
                      match getenv (lit "PGSSLMODE") with
                      | Some mode =>
                          if jsstring_eqb mode (lit "require")
                          then Some false else None
                      | None => None
                      end |}
        | None => Err (lit "Missing DATABASE_URL in environment.", 1)
        end
  | None => Err (lit "Missing OPENAI_API_KEY in environment.", 1)
  end.

(** ** The browser side: the component [App]

    The state of the component, and its two asynchronous functions as
    functions of what [fetch] answers.  Two things belong to the browser
    and are taken as parameters: the conversion [String(v)] that
    [new Error(v)] applies to its argument, and the text of the
    [TypeError] raised by reading a property of [null]. *)

Module App.

Record engine : Type := {
  to_string : value -> jsstring;
  type_error_message : jsstring -> jsstring
}.

(** What [await fetch(...)] and [await res.json()] come to: the request
    fails, or a response arrives with its [ok] flag and a body that
    [res.json()] parses or rejects. *)
Inductive fetch_result : Type :=
| NetworkError (message : jsstring)
| Reply (ok : bool) (json : result jsstring value).

Record state : Type := {
  question : jsstring;
  rows : value;
  rowCount : value;
  schema : value;
  loading : bool;
  error : jsstring;
  schemaError : jsstring
}.

(** [useState] initial values. *)
Definition initial : state :=
  {| question := []; rows := VArr []; rowCount := VNum 0;
     schema := VStr []; loading := false; error := []; schemaError := [] |}.

(** [v || d] on values and on strings. *)
Definition or_else (v d : value) : value := if truthy v then v else d.

Definition message_or (m d : jsstring) : jsstring :=
  if truthy_string m then m else d.

(** [JSON.stringify({ question })] as the server parses it. *)
Definition request_body (q : jsstring) : value :=
  VObj [(lit "question", VStr q)].

(** [handleAsk]: the bodies posted to [/api/query] and the state once
    the function has finished. *)
Definition handleAsk (js : engine) (fetch : value -> fetch_result)
           (st : state) : list value * state :=
  if negb (truthy_string (trim (question st)))
  then
    ([],
     {| question := question st; rows := rows st; rowCount := rowCount st;
        schema := schema st; loading := loading st;
        error := lit "Ask a question to get data.";
        schemaError := schemaError st |})
  else
    let outcome : result jsstring (value * value) :=
      match fetch (request_body (question st)) with
      | NetworkError msg => Err msg
      | Reply _ (Err msg) => Err msg
      | Reply ok (Ok data) =>
          if negb ok then
            match get_prop data (lit "error") with
            | Some e =>
                Err (to_string js (or_else e (VStr (lit "Request failed"))))
            | None => Err (type_error_message js (lit "error"))
            end
          else
            match get_prop data (lit "rows"), get_prop data (lit "rowCount")
            with
            | Some r, Some c => Ok (or_else r (VArr []), or_else c (VNum 0))
            | _, _ => Err (type_error_message js (lit "rows"))
            end
      end in
    ([request_body (question st)],
     match outcome with
     | Ok (r, c) =>
         {| question := question st; rows := r; rowCount := c;
            schema := schema st; loading := false; error := [];
            schemaError := schemaError st |}
     | Err msg =>
         {| question := question st; rows := VArr []; rowCount := VNum 0;
            schema := schema st; loading := false;
            error := message_or msg (lit "Something went wrong");
            schemaError := schemaError st |}
     end).

(** [fetchSchema]: the state once the function has finished. *)
Definition fetchSchema (js : engine) (fetch : fetch_result) (st : state)
  : state :=
  let outcome : result jsstring value :=
    match fetch with
    | NetworkError msg => Err msg
    | Reply false _ => Err (lit "Failed to load schema.")
    | Reply true (Err msg) => Err msg
    | Reply true (Ok data) =>
        match get_prop data (lit "schema") with
        | Some v => Ok (or_else v (VStr []))
        | None => Err (type_error_message js (lit "schema"))
        end
    end in
  match outcome with
  | Ok v =>
      {| question := question st; rows := rows st; rowCount := rowCount st;
         schema := v; loading := loading st; error := error st;
         schemaError := [] |}
  | Err msg =>
      {| question := question st; rows := rows st; rowCount := rowCount st;
         schema := schema st; loading := loading st; error := error st;
         schemaError := message_or msg (lit "Unable to fetch schema.") |}
  end.

End App.

(** The body of a response as [res.json(...)] sends it and the browser
    parses it. *)
Definition json_of_body (b : response_body) : value :=
  match b with
  | HealthBody => VObj [(lit "ok", VBool true)]
  | SchemaBody schema => VObj [(lit "schema", VStr schema)]
  | ErrorBody error => VObj [(lit "error", VStr error)]
  | QueryBody sql notes result_rows result_rowCount =>
      VObj [(lit "sql", VStr sql); (lit "notes", notes);
            (lit "rows", VArr result_rows);
            (lit "rowCount", result_rowCount)]
  end.

(** What [fetch] answers when the request reaches the server and the
    response [r] comes back: [res.ok] holds for a status from 200 to
    299. *)
Definition reply_of (r : response) : App.fetch_result :=
  App.Reply ((200 <=? status r)%nat && (status r <=? 299)%nat)
            (Ok (json_of_body (body r))).

(** * Notions used in the statements

    Predicates on code units and texts, the rules of the sanitizer taken
    one by one, and the sample worlds the statements below refer to. *)

(** The punctuation the sanitizer looks for: the statement separator and
    the code units of the comment markers. *)
Definition punctuation : list ascii :=
  [";"%char; "-"%char; "/"%char; "*"%char].

(** White space only (the empty text included). *)
Definition blank (s : jsstring) : bool := forallb is_space s.

(** Code units that occur nowhere in the pattern [p]. *)
Definition foreign_to (p : jsstring) (c : ascii) : Prop :=
  forall a, In a p -> Ascii.eqb a c = false.

(** [nstmts cur s] counts the fragments of [s] between semicolons that
    hold a code unit other than white space; [cur] tells whether the
    fragment being read already holds one. *)
Fixpoint nstmts (cur : bool) (s : jsstring) : nat :=
  match s with
  | [] => if cur then 1 else 0
  | c :: s' =>
      if Ascii.eqb c ";" then (if cur then 1 else 0) + nstmts false s'
      else nstmts (cur || negb (is_space c)) s'
  end.

(** Code units that may follow the single statement. *)
Definition filler (c : ascii) : Prop := c = ";"%char \/ is_space c = true.

(** The code unit that precedes the position reached after [pre]. *)
Definition last_unit (prev : option ascii) (pre : jsstring) : option ascii :=
  fold_left (fun _ c => Some c) pre prev.

(** What the specification calls a whole-word occurrence: the word stands
    in the text with no word character ([A-Za-z0-9_]) directly before or
    after it. *)
Definition whole_word (w s : jsstring) : Prop :=
  exists pre post,
    s = pre ++ w ++ post
    /\ Regex.word_before (last_unit None pre) = false
    /\ Regex.word_after post = false.

(** A word: one word character at least, and nothing else. *)
Definition is_word (w : jsstring) : Prop :=
  w <> [] /\ forallb Regex.is_word_char w = true.

Definition nonword (c : ascii) : Prop := Regex.is_word_char c = false.

(** The comment markers are made of [-], [/] and [*]. *)
Definition marker_units : list ascii := ["-"%char; "/"%char; "*"%char].

(** The five rules of the specification, in its order. *)
Inductive rule : Type :=
| NonEmptyString
| StartsWithSelect
| SingleStatement
| NoBannedWord
| NoComment.

Definition rules_in_order : list rule :=
  [NonEmptyString; StartsWithSelect; SingleStatement; NoBannedWord; NoComment].

Definition rule_error (r : rule) : sanitize_error :=
  match r with
  | NonEmptyString => SqlMissing
  | StartsWithSelect => NotASelect
  | SingleStatement => MultipleStatements
  | NoBannedWord => ForbiddenOperation
  | NoComment => CommentsNotAllowed
  end.

(** The trimmed text the rules 2 to 5 look at. *)
Definition trimmed_text (sql : value) : jsstring :=
  match sql with VStr s => trim s | _ => [] end.

(** Each rule on its own, whatever the other rules say. *)
Definition violates (r : rule) (sql : value) : bool :=
  let lowered := toLowerCase (trimmed_text sql) in
  match r with
  | NonEmptyString =>
      match sql with VStr (_ :: _) => false | _ => true end
  | StartsWithSelect => negb (startsWith "select" lowered)
  | SingleStatement =>
      (1 <? List.length (statements (trimmed_text sql)))%nat
  | NoBannedWord => Regex.test banned lowered
  | NoComment => includes "--" lowered || includes "/*" lowered
  end.

Definition first_violation (sql : value) : option rule :=
  find (fun r => violates r sql) rules_in_order.

(** Step 6: one trailing semicolon is dropped. *)
Definition strip_semicolon (t : jsstring) : jsstring :=
  if endsWith ";" t then slice_0_m1 t else t.

(** The place of a rule in the order of evaluation. *)
Definition rule_index (r : rule) : nat :=
  match r with
  | NonEmptyString => 1
  | StartsWithSelect => 2
  | SingleStatement => 3
  | NoBannedWord => 4
  | NoComment => 5
  end.

(** The cached text [loadSchema] answers with at time [now], if any. *)
Definition cache_hit (now : Z) (c : cache) : option jsstring :=
  match cachedSchema c with
  | Some s =>
      if truthy_string s && (now - cachedSchemaLoadedAt c <? SCHEMA_CACHE_MS)%Z
      then Some s else None
  | None => None
  end.

(** The calls of one refresh that reaches the database. *)
Definition refresh_events : list event :=
  [PoolConnect; ColumnsQuery; CountsQuery; ClientRelease].

(** The world [w] after the calls [evs], the cache being untouched. *)
Definition log (w : world) (evs : list event) : world :=
  {| cached := cached w; trace := trace w ++ evs |}.

(** A column listing as the first metadata query orders it: table by
    table, each with its columns (name, declared type). *)
Record table_listing : Type := {
  tl_schema : jsstring;
  tl_name : jsstring;
  tl_columns : list (jsstring * jsstring)
}.

Definition rows_of (t : table_listing) : list column_row :=
  map (fun c => {| col_table_schema := tl_schema t;
                   col_table_name := tl_name t;
                   column_name := fst c;
                   data_type := snd c |})
      (tl_columns t).

Definition listing_rows (ts : list table_listing) : list column_row :=
  flat_map rows_of ts.

Definition key_of (t : table_listing) : jsstring :=
  table_key (tl_schema t) (tl_name t).

(** The row-count annotation of a table, empty without an estimate. *)
Definition meta_of (counts : list count_row) (key : jsstring) : jsstring :=
  match JsMap.get key (countMap_of counts) with
  | Some (Some est) => lit " (est_rows ~" ++ est ++ lit ")"
  | _ => []
  end.

Definition column_text (c : jsstring * jsstring) : jsstring :=
  fst c ++ lit " (" ++ snd c ++ lit ")".

(** The line [schema.table (est_rows ~N): col1 (type1), col2 (type2)]. *)
Definition table_line (counts : list count_row) (t : table_listing)
  : jsstring :=
  key_of t ++ meta_of counts (key_of t) ++ lit ": "
  ++ join (lit ", ") (map column_text (tl_columns t)).

Definition entry_of (counts : list count_row) (t : table_listing)
  : jsstring * table_entry :=
  (key_of t,
   {| columns := map column_text (tl_columns t);
      meta := meta_of counts (key_of t) |}).

(** A column listing with two tables and a row-count listing that knows
    one of them. *)
Definition users_orders_columns : list column_row :=
  [ {| col_table_schema := "public"; col_table_name := "users";
       column_name := "id"; data_type := "integer" |};
    {| col_table_schema := "public"; col_table_name := "users";
       column_name := "name"; data_type := "text" |};
    {| col_table_schema := "public"; col_table_name := "orders";
       column_name := "id"; data_type := "integer" |} ].

Definition users_counts : list count_row :=
  [ {| cnt_table_schema := "public"; cnt_table_name := "users";
       est_rows := Some (lit "42") |} ].

(** A database that answers both metadata queries; [cols] is what the
    column listing holds at the time of the call. *)
Definition database (now : Z) (cols : list column_row) : env :=
  {| date_now := now;
     pool_connect := Ok tt;
     columns_query := Ok cols;
     counts_query := Ok [];
     chat_completion := Ok None;
     json_parse := fun _ => None;
     pool_query := fun _ => Err [] |}.

(** The server right after start. *)
Definition cold_start : world := {| cached := initial_cache; trace := [] |}.

(** A database whose column listing fails. *)
Definition failing_columns (now : Z) : env :=
  {| date_now := now;
     pool_connect := Ok tt;
     columns_query := Err (lit "connection reset");
     counts_query := Ok [];
     chat_completion := Ok None;
     json_parse := fun _ => None;
     pool_query := fun _ => Err [] |}.

(** A snapshot cached at time 0. *)
Definition stale_world : world :=
  {| cached := {| cachedSchema := Some (lit "public.t: id (integer)");
                  cachedSchemaLoadedAt := 0 |};
     trace := [] |}.

(** What [buildSql] makes of the answer of the model. *)
Definition decode_completion (e : env) : result jsstring (jsstring * value) :=
  match chat_completion e with
  | Err msg => Err msg
  | Ok None => Err (lit "No response from model.")
  | Ok (Some content) =>
      if negb (truthy_string content)
      then Err (lit "No response from model.")
      else
        match json_parse e content with
        | None => Err (lit "Model returned invalid JSON.")
        | Some parsed =>
            match get_prop parsed (lit "sql") with
            | None => Err (lit "Cannot read properties of null (reading 'sql')")
            | Some parsed_sql =>
                if negb (truthy parsed_sql)
                then Err (lit "Model did not return SQL.")
                else
                  match sanitizeSql parsed_sql with
                  | Err err => Err (error_message err)
                  | Ok sql =>
                      match get_prop parsed (lit "notes") with
                      | None =>
                          Err (lit "Cannot read properties of null (reading 'notes')")
                      | Some parsed_notes =>
                          Ok (sql, if truthy parsed_notes then parsed_notes
                                   else VStr [])
                      end
                  end
            end
        end
  end.

(** A question the route accepts: a string that is not white space only. *)
Definition valid_question (req_body : value) (q : jsstring) : Prop :=
  question_of req_body = VStr q /\ trim q <> [].

(** A request during which the model answers [drop table users;]. *)
Definition drop_table_env : env :=
  {| date_now := 1000;
     pool_connect := Ok tt;
     columns_query := Ok users_orders_columns;
     counts_query := Ok users_counts;
     chat_completion := Ok (Some (lit "{sql: drop table users;}"));
     json_parse :=
       fun _ => Some (VObj [(lit "sql", VStr "drop table users;")]);
     pool_query := fun _ => Ok {| rows := []; rowCount := VNum 0 |} |}.

Definition list_users_body : value :=
  VObj [(lit "question", VStr "  list all users ")].

(** A run of calls to [loadSchema], one after the other. *)
Fixpoint serve (es : list env) (w : world)
  : list (result jsstring jsstring) * world :=
  match es with
  | [] => ([], w)
  | e :: es' =>
      let (r, w1) := loadSchema e w in
      let (rs, w2) := serve es' w1 in
      (r :: rs, w2)
  end.

(** The annotation written for an estimate; [None] is a null estimate. *)
Definition annotation (est : option jsstring) : jsstring :=
  match est with
  | Some n => lit " (est_rows ~" ++ n ++ lit ")"
  | None => []
  end.

(** A pool that hands out no connection. *)
Definition failing_pool (now : Z) : env :=
  {| date_now := now;
     pool_connect := Err (lit "too many clients");
     columns_query := Ok [];
     counts_query := Ok [];
     chat_completion := Ok None;
     json_parse := fun _ => None;
     pool_query := fun _ => Err [] |}.

(** A request during which the model answers with text that is not JSON. *)
Definition not_json_env : env :=
  {| date_now := 1000;
     pool_connect := Ok tt;
     columns_query := Ok users_orders_columns;
     counts_query := Ok users_counts;
     chat_completion := Ok (Some (lit "Sure, here is your query"));
     json_parse := fun _ => None;
     pool_query := fun _ => Ok {| rows := []; rowCount := VNum 0 |} |}.

(** A request during which the model answers with a select. *)
Definition select_users_env : env :=
  {| date_now := 1000;
     pool_connect := Ok tt;
     columns_query := Ok users_orders_columns;
     counts_query := Ok users_counts;
     chat_completion := Ok (Some (lit "{sql, notes}"));
     json_parse :=
       fun _ => Some (VObj [(lit "sql", VStr "select * from users limit 50;");
                            (lit "notes", VStr "all users")]);
     pool_query :=
       fun _ => Ok {| rows := [VObj [(lit "id", VNum 1)]];
                      rowCount := VNum 1 |} |}.

(** An engine whose [String] is the identity on strings. *)
Definition plain_engine : App.engine :=
  {| App.to_string := fun v => match v with VStr s => s | _ => [] end;
     App.type_error_message := fun _ => lit "data is null" |}.

(** The state of the component with a question typed in. *)
Definition asking (q : jsstring) : App.state :=
  {| App.question := q; App.rows := VArr []; App.rowCount := VNum 0;
     App.schema := VStr []; App.loading := false; App.error := [];
     App.schemaError := [] |}.

(** [fetch] when every request reaches the handler of [POST /api/query]
    and its response reaches the browser. *)
Definition query_server (e : env) (w : world) (req_body : value)
  : App.fetch_result :=
  reply_of (fst (post_api_query e req_body w)).

(** An environment with the two required variables only. *)
Definition minimal_environment (name : jsstring) : option jsstring :=
  if jsstring_eqb name (lit "OPENAI_API_KEY") then Some (lit "sk-test")
  else if jsstring_eqb name (lit "DATABASE_URL")
       then Some (lit "postgres://localhost/app")
       else if jsstring_eqb name (lit "PORT") then Some []
            else None.

(** [fetch] when the request reaches the handler of [GET /api/schema]
    and its response reaches the browser. *)
Definition schema_server (e : env) (w : world) : App.fetch_result :=
  reply_of (fst (get_api_schema e w)).

(** * Properties *)

(** ** Code units *)

Ltac ascii_cases c := destruct c as [[] [] [] [] [] [] [] []].

Lemma lower_char_space (c : ascii) : is_space (lower_char c) = is_space c.
Proof. ascii_cases c; reflexivity. Qed.

Lemma lower_char_word (c : ascii) :
  Regex.is_word_char (lower_char c) = Regex.is_word_char c.
Proof. ascii_cases c; reflexivity. Qed.

Lemma lower_char_punct (a c : ascii) :
  In a punctuation -> Ascii.eqb a (lower_char c) = Ascii.eqb a c.
Proof.
  unfold punctuation; simpl.
  intros [<- | [<- | [<- | [<- | []]]]]; ascii_cases c; reflexivity.
Qed.

Lemma space_not_word (c : ascii) :
  is_space c = true -> Regex.is_word_char c = false.
Proof. ascii_cases c; simpl; intros H; try reflexivity; discriminate H. Qed.

Lemma space_not_punct (a c : ascii) :
  In a punctuation -> is_space c = true -> Ascii.eqb a c = false.
Proof.
  unfold punctuation; simpl.
  intros [<- | [<- | [<- | [<- | []]]]]; ascii_cases c; simpl; intros H;
    try reflexivity; discriminate H.
Qed.

(** ** [trim] *)

Lemma trimStart_blank (s : jsstring) : blank s = true -> trimStart s = [].
Proof.
  induction s as [|c s IH]; simpl; [reflexivity|].
  destruct (is_space c); simpl; [exact IH | discriminate].
Qed.

Lemma trimEnd_blank (s : jsstring) : blank s = true -> trimEnd s = [].
Proof.
  induction s as [|c s IH]; simpl; [reflexivity|].
  destruct (is_space c); simpl; [|discriminate].
  intros H. now rewrite (IH H).
Qed.

Lemma trimEnd_nil_blank (s : jsstring) : trimEnd s = [] -> blank s = true.
Proof.
  induction s as [|c s IH]; simpl; [reflexivity|].
  destruct (trimEnd s) eqn:E.
  - destruct (is_space c); [intros _; now apply IH | discriminate].
  - discriminate.
Qed.

Lemma trimStart_cons_nonspace (c : ascii) (s : jsstring) :
  is_space c = false -> trimStart (c :: s) = c :: s.
Proof. simpl. now intros ->. Qed.

Lemma trimStart_app_nonspace (s : jsstring) (c : ascii) :
  is_space c = false -> trimStart (s ++ [c]) = trimStart s ++ [c].
Proof.
  intros Hc. induction s as [|a s IH]; simpl.
  - now rewrite Hc.
  - destruct (is_space a); [exact IH | reflexivity].
Qed.

Lemma trimEnd_app_nonspace (s : jsstring) (c : ascii) :
  is_space c = false -> trimEnd (s ++ [c]) = s ++ [c].
Proof.
  intros Hc. induction s as [|a s IH]; simpl.
  - now rewrite Hc.
  - rewrite IH. destruct (s ++ [c]) eqn:E; [|reflexivity].
    now destruct s.
Qed.

(** What [trimEnd] drops is a run of white space. *)
Lemma trimEnd_split (s : jsstring) :
  exists ws, s = trimEnd s ++ ws /\ blank ws = true.
Proof.
  induction s as [|c s (ws & Hs & Hws)]; simpl.
  - exists []. auto.
  - destruct (trimEnd s) as [|a r] eqn:E.
    + destruct (is_space c) eqn:Hc.
      * exists (c :: s). split; [reflexivity|].
        simpl. rewrite Hc. now apply trimEnd_nil_blank.
      * exists s. split; [reflexivity | now apply trimEnd_nil_blank].
    + exists ws. split; [|exact Hws]. simpl. f_equal. exact Hs.
Qed.

Lemma trimStart_split (s : jsstring) :
  exists ws, s = ws ++ trimStart s /\ blank ws = true.
Proof.
  induction s as [|c s (ws & Hs & Hws)]; simpl.
  - exists []. auto.
  - destruct (is_space c) eqn:Hc.
    + exists (c :: ws). simpl. rewrite Hc, Hws. now rewrite <- Hs.
    + exists []. auto.
Qed.

Lemma trimEnd_head (c : ascii) (s : jsstring) :
  is_space c = false -> exists r, trimEnd (c :: s) = c :: r.
Proof.
  intros Hc. simpl. destruct (trimEnd s).
  - rewrite Hc. now exists [].
  - eexists. reflexivity.
Qed.

(** A trimmed string is empty or starts and ends with a code unit that
    is not white space. *)
Lemma trim_cases (s : jsstring) :
  trim s = [] \/
  exists c r, trim s = c :: r /\ is_space c = false.
Proof.
  unfold trim. induction s as [|c s IH]; simpl; [now left|].
  destruct (is_space c) eqn:Hc; [exact IH|].
  right. destruct (trimEnd_head c s Hc) as [r Hr].
  exists c, r. split; [exact Hr | exact Hc].
Qed.

Lemma trimEnd_idem (s : jsstring) : trimEnd (trimEnd s) = trimEnd s.
Proof.
  induction s as [|c s IH]; simpl; [reflexivity|].
  destruct (trimEnd s) as [|a r] eqn:E.
  - destruct (is_space c) eqn:Hc; simpl; [reflexivity | now rewrite Hc].
  - change (trimEnd (c :: a :: r)) with
      (match trimEnd (a :: r) with
       | [] => if is_space c then [] else [c]
       | x => c :: x end).
    now rewrite IH.
Qed.

Lemma trim_idem (s : jsstring) : trim (trim s) = trim s.
Proof.
  destruct (trim_cases s) as [E | (c & r & E & Hc)].
  - now rewrite E.
  - unfold trim at 1. rewrite E, (trimStart_cons_nonspace c r Hc), <- E.
    unfold trim. apply trimEnd_idem.
Qed.

Lemma toLowerCase_app (a b : jsstring) :
  toLowerCase (a ++ b) = toLowerCase a ++ toLowerCase b.
Proof. apply map_app. Qed.

Lemma trimStart_toLowerCase (s : jsstring) :
  trimStart (toLowerCase s) = toLowerCase (trimStart s).
Proof.
  induction s as [|c s IH]; simpl; [reflexivity|].
  rewrite lower_char_space. destruct (is_space c); [exact IH | reflexivity].
Qed.

Lemma trimEnd_toLowerCase (s : jsstring) :
  trimEnd (toLowerCase s) = toLowerCase (trimEnd s).
Proof.
  induction s as [|c s IH]; simpl; [reflexivity|].
  rewrite IH, lower_char_space.
  destruct (trimEnd s); simpl; [destruct (is_space c)|]; reflexivity.
Qed.

Lemma trim_toLowerCase (s : jsstring) :
  trim (toLowerCase s) = toLowerCase (trim s).
Proof.
  unfold trim. now rewrite trimStart_toLowerCase, trimEnd_toLowerCase.
Qed.

Lemma blank_app (a b : jsstring) : blank (a ++ b) = blank a && blank b.
Proof. apply forallb_app. Qed.

Lemma truthy_trim (s : jsstring) : truthy_string (trim s) = negb (blank s).
Proof.
  destruct (blank s) eqn:B; simpl.
  - unfold trim. rewrite (trimStart_blank s B). reflexivity.
  - destruct (trim s) eqn:E; [|reflexivity].
    unfold trim in E. apply trimEnd_nil_blank in E.
    destruct (trimStart_split s) as (ws & Hs & Hws).
    rewrite Hs, blank_app, Hws, E in B. discriminate B.
Qed.

(** ** [startsWith], [endsWith], [includes] *)

Lemma startsWith_spec (p s : jsstring) :
  startsWith p s = true <-> exists t, s = p ++ t.
Proof.
  revert s. induction p as [|a p IH]; intros s; simpl.
  - split; [intros _; now exists s | reflexivity].
  - destruct s as [|b s].
    + split; [discriminate | intros (t & H); discriminate H].
    + rewrite andb_true_iff, IH, Ascii.eqb_eq. split.
      * intros (-> & t & ->). now exists t.
      * intros (t & H). injection H as -> ->. split; [reflexivity | now exists t].
Qed.

Lemma startsWith_app (p s t : jsstring) :
  startsWith p s = true -> startsWith p (s ++ t) = true.
Proof.
  rewrite !startsWith_spec. intros (u & ->). exists (u ++ t).
  now rewrite app_assoc.
Qed.

Lemma endsWith_char (c : ascii) (s : jsstring) :
  endsWith [c] s = true <-> exists r, s = r ++ [c].
Proof.
  unfold endsWith. rewrite startsWith_spec. simpl. split.
  - intros (t & H). exists (rev t).
    rewrite <- (rev_involutive s), H. reflexivity.
  - intros (r & ->). exists (rev r). now rewrite rev_app_distr.
Qed.

Lemma includes_spec (p s : jsstring) :
  includes p s = true <-> exists a b, s = a ++ p ++ b.
Proof.
  induction s as [|c s IH]; simpl.
  - rewrite orb_false_r, startsWith_spec. split.
    + intros (t & H). now exists [], t.
    + intros (a & b & H). destruct a; [now exists b|discriminate H].
  - rewrite orb_true_iff, IH, startsWith_spec. split.
    + intros [(t & H) | (a & b & ->)].
      * now exists [], t.
      * now exists (c :: a), b.
    + intros (a & b & H). destruct a as [|x a].
      * left. now exists b.
      * right. injection H as _ ->. now exists a, b.
Qed.

Lemma startsWith_app_foreign (p s tail : jsstring) :
  p <> [] -> Forall (foreign_to p) tail ->
  startsWith p (s ++ tail) = startsWith p s.
Proof.
  intros Hp Ht. revert s Hp Ht.
  induction p as [|a p IH]; intros s Hp Ht; [now elim Hp|].
  destruct s as [|b s]; simpl.
  - destruct tail as [|c tail]; [reflexivity|].
    inversion Ht as [|? ? Hc _]; subst.
    now rewrite (Hc a (or_introl eq_refl)).
  - destruct p as [|a' p]; [reflexivity|].
    f_equal. apply IH; [discriminate|].
    eapply Forall_impl; [|exact Ht].
    intros c Hc x Hx. apply Hc. now right.
Qed.

Lemma includes_foreign (p tail : jsstring) :
  p <> [] -> Forall (foreign_to p) tail -> includes p tail = false.
Proof.
  intros Hp Ht. destruct p as [|a p]; [now elim Hp|].
  induction Ht as [|c tail Hc _ IH]; [reflexivity|].
  simpl. now rewrite (Hc a (or_introl eq_refl)), IH.
Qed.

Lemma includes_app_foreign (p s tail : jsstring) :
  p <> [] -> Forall (foreign_to p) tail ->
  includes p (s ++ tail) = includes p s.
Proof.
  intros Hp Ht. induction s as [|c s IH].
  - simpl app. rewrite (includes_foreign p tail Hp Ht).
    destruct p; [now elim Hp | reflexivity].
  - change (includes p ((c :: s) ++ tail))
      with (startsWith p ((c :: s) ++ tail) || includes p (s ++ tail)).
    rewrite (startsWith_app_foreign p (c :: s) tail Hp Ht), IH. reflexivity.
Qed.

Lemma includes_foreign_app (p hd s : jsstring) :
  p <> [] -> Forall (foreign_to p) hd ->
  includes p (hd ++ s) = includes p s.
Proof.
  intros Hp Ht. destruct p as [|a p]; [now elim Hp|].
  induction Ht as [|c hd Hc _ IH]; [reflexivity|].
  simpl app. cbn [includes startsWith].
  now rewrite (Hc a (or_introl eq_refl)), IH.
Qed.

Lemma startsWith_toLowerCase (p s : jsstring) :
  incl p punctuation -> startsWith p (toLowerCase s) = startsWith p s.
Proof.
  revert s. induction p as [|a p IH]; intros s Hp; [reflexivity|].
  destruct s as [|c s]; [reflexivity|]. simpl.
  rewrite lower_char_punct by (apply Hp; now left).
  f_equal. apply IH. intros x Hx. apply Hp. now right.
Qed.

Lemma includes_toLowerCase (p s : jsstring) :
  incl p punctuation -> includes p (toLowerCase s) = includes p s.
Proof.
  intros Hp. induction s as [|c s IH].
  - reflexivity.
  - change (toLowerCase (c :: s)) with (lower_char c :: toLowerCase s).
    cbn [includes]. rewrite IH. f_equal.
    apply (startsWith_toLowerCase p (c :: s) Hp).
Qed.

Lemma blank_foreign (p ws : jsstring) :
  incl p punctuation -> blank ws = true -> Forall (foreign_to p) ws.
Proof.
  intros Hp. induction ws as [|c ws IH]; simpl; [constructor|].
  rewrite andb_true_iff. intros (Hc & Hws). constructor; [|now apply IH].
  intros a Ha. apply space_not_punct; [now apply Hp | exact Hc].
Qed.

(** Trimming neither hides nor creates a comment marker. *)
Lemma includes_trim (p s : jsstring) :
  p <> [] -> incl p punctuation -> includes p (trim s) = includes p s.
Proof.
  intros Hp Hi.
  destruct (trimStart_split s) as (ws1 & H1 & B1).
  destruct (trimEnd_split (trimStart s)) as (ws2 & H2 & B2).
  rewrite H1 at 2. rewrite H2.
  rewrite (includes_foreign_app p ws1 _ Hp (blank_foreign p ws1 Hi B1)).
  now rewrite (includes_app_foreign p _ ws2 Hp (blank_foreign p ws2 Hi B2)).
Qed.

(** ** Counting statements *)

Lemma split_nstmts (s : jsstring) (cur : bool) :
  match split ";" s with
  | f :: fs =>
      nstmts cur s =
      (if cur || negb (blank f) then 1 else 0)
      + List.length (filter (fun x => truthy_string (trim x)) fs)
  | [] => False
  end.
Proof.
  revert cur. induction s as [|c s IH]; intros cur; simpl.
  - now rewrite orb_false_r, Nat.add_0_r.
  - destruct (Ascii.eqb c ";").
    + rewrite orb_false_r. f_equal.
      specialize (IH false). destruct (split ";" s) as [|f fs]; [easy|].
      simpl. rewrite truthy_trim, IH. simpl. now destruct (blank f).
    + specialize (IH (cur || negb (is_space c))).
      destruct (split ";" s) as [|f fs]; [easy|].
      rewrite IH. simpl. f_equal.
      now destruct cur, (is_space c), (blank f).
Qed.

Lemma statements_nstmts (s : jsstring) :
  List.length (statements s) = nstmts false s.
Proof.
  unfold statements. pose proof (split_nstmts s false) as H.
  destruct (split ";" s) as [|f fs]; [easy|].
  rewrite H. simpl. rewrite truthy_trim. now destruct (blank f).
Qed.

Lemma nstmts_filler (tail : jsstring) (cur : bool) :
  Forall filler tail -> nstmts cur tail = if cur then 1 else 0.
Proof.
  intros Ht. revert cur. induction Ht as [|c tail Hc _ IH]; intros cur.
  - reflexivity.
  - simpl. destruct (Ascii.eqb c ";") eqn:E.
    + rewrite IH. apply Nat.add_0_r.
    + destruct Hc as [-> | Hc]; [discriminate E|].
      rewrite Hc, orb_false_r. apply IH.
Qed.

Lemma nstmts_app_filler (s tail : jsstring) (cur : bool) :
  Forall filler tail -> nstmts cur (s ++ tail) = nstmts cur s.
Proof.
  intros Ht. revert cur. induction s as [|c s IH]; intros cur; simpl.
  - now apply nstmts_filler.
  - now rewrite !IH.
Qed.

Lemma nstmts_lower_bound (s : jsstring) (cur : bool) :
  (if cur then 1 else 0) <= nstmts cur s.
Proof.
  revert cur. induction s as [|c s IH]; intros cur; simpl.
  - lia.
  - destruct (Ascii.eqb c ";"); [lia|].
    specialize (IH (cur || negb (is_space c))).
    destruct cur; simpl in *; lia.
Qed.

Lemma nstmts_app_le (s t : jsstring) (cur : bool) :
  nstmts cur s <= nstmts cur (s ++ t).
Proof.
  revert cur. induction s as [|c s IH]; intros cur; simpl.
  - apply nstmts_lower_bound.
  - destruct (Ascii.eqb c ";"); [specialize (IH false); lia | apply IH].
Qed.

Lemma nstmts_toLowerCase (s : jsstring) (cur : bool) :
  nstmts cur (toLowerCase s) = nstmts cur s.
Proof.
  revert cur. induction s as [|c s IH]; intros cur; simpl; [reflexivity|].
  rewrite lower_char_space, !IH.
  rewrite (Ascii.eqb_sym (lower_char c)), (Ascii.eqb_sym c).
  rewrite lower_char_punct by (now left). reflexivity.
Qed.

Lemma nstmts_zero_filler (s : jsstring) :
  nstmts false s = 0 -> Forall filler s.
Proof.
  induction s as [|c s IH]; simpl; [constructor|].
  destruct (Ascii.eqb c ";") eqn:E.
  - intros H. constructor; [left; now apply Ascii.eqb_eq | now apply IH].
  - destruct (is_space c) eqn:Hc; simpl; intros H.
    + constructor; [now right | now apply IH].
    + pose proof (nstmts_lower_bound s true). simpl in *. lia.
Qed.

(** With one statement at most, the text is a body free of semicolons
    followed by semicolons and white space only. *)
Lemma nstmts_one_shape (s : jsstring) :
  nstmts true s <= 1 ->
  exists body tail,
    s = body ++ tail /\ ~ In ";"%char body /\ Forall filler tail.
Proof.
  induction s as [|c s IH]; simpl.
  - intros _. exists [], []. repeat split; [easy | constructor].
  - destruct (Ascii.eqb c ";") eqn:E.
    + intros H. apply Ascii.eqb_eq in E. subst c.
      exists [], (";"%char :: s). repeat split; [easy|].
      constructor; [now left | apply nstmts_zero_filler; lia].
    + intros H. destruct (IH H) as (body & tail & -> & Hb & Ht).
      exists (c :: body), tail. repeat split; [|exact Ht].
      intros [-> | Hin]; [|now apply Hb].
      now rewrite Ascii.eqb_refl in E.
Qed.

(** ** The banned-word expression *)

Lemma banned_words_are_words : Forall is_word banned_words.
Proof. repeat constructor; discriminate. Qed.

Lemma last_unit_app (prev : option ascii) (a b : jsstring) :
  last_unit prev (a ++ b) = last_unit (last_unit prev a) b.
Proof. apply fold_left_app. Qed.

Lemma last_unit_nonempty (p q : option ascii) (w : jsstring) :
  w <> [] -> last_unit p w = last_unit q w.
Proof.
  destruct w as [|c w]; [easy|]. intros _. reflexivity.
Qed.

Lemma consume_spec (w s s' : jsstring) (prev p' : option ascii) :
  Regex.consume w prev s = Some (p', s') <->
  s = w ++ s' /\ p' = last_unit prev w.
Proof.
  revert prev s. induction w as [|a w IH]; intros prev s; simpl.
  - split.
    + intros H. injection H as <- <-. auto.
    + intros (-> & ->). reflexivity.
  - destruct s as [|b s].
    + split; [discriminate | intros (H & _); discriminate H].
    + destruct (Ascii.eqb a b) eqn:E.
      * apply Ascii.eqb_eq in E. subst b. rewrite IH. split.
        -- intros (-> & ->). auto.
        -- intros (H & ->). injection H as ->. auto.
      * split; [discriminate|]. intros (H & _). injection H as -> _.
        now rewrite Ascii.eqb_refl in E.
Qed.

Lemma matches_alternation (ws : list jsstring) (prev : option ascii)
      (s : jsstring) (k : option ascii -> jsstring -> bool) :
  Regex.matches (Regex.alternation ws) prev s k = true <->
  exists w rest, In w ws /\ s = w ++ rest /\ k (last_unit prev w) rest = true.
Proof.
  induction ws as [|w ws IH]; simpl.
  - split; [discriminate | intros (? & ? & [] & _)].
  - rewrite orb_true_iff, IH. split.
    + intros [H | (w' & rest & Hin & Hs & Hk)].
      * destruct (Regex.consume w prev s) as [[p' s']|] eqn:E; [|discriminate].
        apply consume_spec in E. destruct E as (-> & ->).
        exists w, s'. auto.
      * exists w', rest. auto.
    + intros (w' & rest & [<- | Hin] & Hs & Hk).
      * left. subst s.
        assert (E : Regex.consume w prev (w ++ rest)
                    = Some (last_unit prev w, rest))
          by now apply consume_spec.
        now rewrite E.
      * right. exists w', rest. auto.
Qed.

Lemma search_spec (r : Regex.regex) (s : jsstring) (prev : option ascii) :
  Regex.search r prev s = true <->
  exists pre post,
    s = pre ++ post
    /\ Regex.matches r (last_unit prev pre) post (fun _ _ => true) = true.
Proof.
  revert prev. induction s as [|c s IH]; intros prev; simpl.
  - rewrite orb_false_r. split.
    + intros H. now exists [], [].
    + intros (pre & post & H & Hm).
      symmetry in H. apply app_eq_nil in H. destruct H as (-> & ->).
      exact Hm.
  - rewrite orb_true_iff, IH. split.
    + intros [H | (pre & post & -> & Hm)].
      * now exists [], (c :: s).
      * now exists (c :: pre), post.
    + intros (pre & post & H & Hm). destruct pre as [|x pre].
      * left. simpl in H. now subst post.
      * right. injection H as -> ->. now exists pre, post.
Qed.

Lemma word_after_word (w rest : jsstring) :
  is_word w -> Regex.word_after (w ++ rest) = true.
Proof.
  intros (Hne & Hw). destruct w as [|c w]; [easy|].
  simpl in *. now apply andb_true_iff in Hw.
Qed.

Lemma word_before_word (w : jsstring) (prev : option ascii) :
  is_word w -> Regex.word_before (last_unit prev w) = true.
Proof.
  intros (Hne & Hw). revert prev Hne Hw.
  induction w as [|c w IH]; intros prev Hne Hw; [easy|].
  simpl in Hw. apply andb_true_iff in Hw. destruct Hw as (Hc & Hw).
  destruct w as [|d w]; [exact Hc|].
  change (last_unit prev (c :: d :: w)) with (last_unit (Some c) (d :: w)).
  apply IH; [discriminate | exact Hw].
Qed.

Lemma matches_banned (prev : option ascii) (s : jsstring) :
  Regex.matches banned prev s (fun _ _ => true) =
  Regex.at_boundary prev s &&
  Regex.matches (Regex.alternation banned_words) prev s
    (fun prev' s' => Regex.at_boundary prev' s' && true).
Proof. reflexivity. Qed.

(** [banned.test(s)] holds exactly when a banned word occurs in [s] as
    a whole word. *)
Lemma banned_test_spec (s : jsstring) :
  Regex.test banned s = true <->
  exists w, In w banned_words /\ whole_word w s.
Proof.
  unfold Regex.test. rewrite search_spec. split.
  - intros (pre & post & -> & Hm). rewrite matches_banned in Hm.
    apply andb_true_iff in Hm. destruct Hm as (Hb & Hm).
    apply matches_alternation in Hm.
    destruct Hm as (w & rest & Hin & -> & Hk).
    rewrite andb_true_r in Hk.
    pose proof (proj1 (Forall_forall _ _) banned_words_are_words w Hin) as Hw.
    unfold Regex.at_boundary in Hb, Hk.
    rewrite (word_after_word w rest Hw) in Hb.
    rewrite (word_before_word w (last_unit None pre) Hw) in Hk.
    exists w. split; [exact Hin|]. exists pre, rest.
    split; [reflexivity|]. split.
    + now destruct (Regex.word_before (last_unit None pre)).
    + now destruct (Regex.word_after rest).
  - intros (w & Hin & pre & post & -> & Hb & Ha).
    pose proof (proj1 (Forall_forall _ _) banned_words_are_words w Hin) as Hw.
    exists pre, (w ++ post). split; [reflexivity|].
    rewrite matches_banned. apply andb_true_iff. split.
    + unfold Regex.at_boundary.
      now rewrite Hb, (word_after_word w post Hw).
    + apply matches_alternation. exists w, post.
      split; [exact Hin|]. split; [reflexivity|].
      unfold Regex.at_boundary.
      now rewrite (word_before_word w (last_unit None pre) Hw), Ha.
Qed.

Lemma word_after_nonword (tail : jsstring) :
  Forall nonword tail -> Regex.word_after tail = false.
Proof. intros H. destruct H as [|c t Hc _]; [reflexivity | exact Hc]. Qed.

Lemma word_before_nonword (hd : jsstring) :
  Forall nonword hd -> Regex.word_before (last_unit None hd) = false.
Proof.
  intros H. destruct (rev hd) as [|c r] eqn:E.
  - apply (f_equal (@rev ascii)) in E. rewrite rev_involutive in E.
    now subst hd.
  - apply (f_equal (@rev ascii)) in E. rewrite rev_involutive in E.
    simpl in E. subst hd. rewrite last_unit_app. simpl.
    apply Forall_app in H. destruct H as (_ & H).
    now inversion H.
Qed.

Lemma word_last_in (w : jsstring) :
  is_word w -> exists w' c, w = w' ++ [c] /\ Regex.is_word_char c = true.
Proof.
  intros (Hne & Hw). destruct (exists_last Hne) as (w' & c & ->).
  exists w', c. split; [reflexivity|].
  rewrite forallb_app in Hw. apply andb_true_iff in Hw.
  destruct Hw as (_ & Hw). simpl in Hw. now rewrite andb_true_r in Hw.
Qed.

(** Text appended after a non-word character run neither adds nor
    removes a whole-word occurrence. *)
Lemma whole_word_app_tail (w s tail : jsstring) :
  is_word w -> Forall nonword tail ->
  whole_word w (s ++ tail) <-> whole_word w s.
Proof.
  intros Hw Ht. split.
  - intros (pre & post & H & Hb & Ha).
    rewrite app_assoc in H. apply app_eq_app in H.
    destruct H as (l & [(H1 & H2) | (H1 & H2)]).
    + exists pre, l. rewrite app_assoc. split; [exact H1|].
      split; [exact Hb|]. subst post. destruct l; [reflexivity | exact Ha].
    + destruct l as [|x l].
      * rewrite app_nil_r in H1. exists pre, [].
        rewrite app_nil_r. auto.
      * exfalso. destruct (word_last_in w Hw) as (w' & c & -> & Hc).
        assert (Hl : x :: l <> []) by discriminate.
        destruct (exists_last Hl) as (l' & y & El). rewrite El in *.
        rewrite !app_assoc in H1. apply app_inj_tail in H1.
        destruct H1 as (_ & <-).
        subst tail. apply Forall_app in Ht. destruct Ht as (Ht & _).
        apply Forall_app in Ht. destruct Ht as (_ & Ht).
        inversion Ht as [|? ? Hy _]; subst.
        unfold nonword in Hy. congruence.
  - intros (pre & post & -> & Hb & Ha).
    exists pre, (post ++ tail). rewrite <- !app_assoc.
    split; [reflexivity|]. split; [exact Hb|].
    destruct post; [now apply word_after_nonword | exact Ha].
Qed.

Lemma whole_word_app_head (w hd s : jsstring) :
  is_word w -> Forall nonword hd ->
  whole_word w (hd ++ s) <-> whole_word w s.
Proof.
  intros Hw Hh. split.
  - intros (pre & post & H & Hb & Ha).
    apply app_eq_app in H.
    destruct H as (l & [(H1 & H2) | (H1 & H2)]).
    + destruct l as [|x l].
      * exists [], post. simpl in H2. auto.
      * exfalso. destruct Hw as (Hne & Hw).
        destruct w as [|c w]; [easy|]. injection H2 as <- _.
        simpl in Hw. apply andb_true_iff in Hw. destruct Hw as (Hc & _).
        subst hd. apply Forall_app in Hh. destruct Hh as (_ & Hh).
        inversion Hh as [|? ? Hx _]; subst.
        unfold nonword in Hx. congruence.
    + exists l, post. split; [exact H2|]. split; [|exact Ha].
      subst pre. destruct l as [|x l]; [reflexivity|].
      rewrite last_unit_app in Hb.
      now rewrite (last_unit_nonempty None (last_unit None hd) (x :: l)).
  - intros (pre & post & -> & Hb & Ha).
    exists (hd ++ pre), post. rewrite <- app_assoc.
    split; [reflexivity|]. split; [|exact Ha].
    rewrite last_unit_app. destruct pre as [|x pre].
    + now apply word_before_nonword.
    + now rewrite (last_unit_nonempty (last_unit None hd) None (x :: pre)).
Qed.

Lemma filler_nonword (tail : jsstring) :
  Forall filler tail -> Forall nonword tail.
Proof.
  apply Forall_impl. intros c [-> | Hc]; [reflexivity|].
  now apply space_not_word.
Qed.

Lemma blank_filler (ws : jsstring) : blank ws = true -> Forall filler ws.
Proof.
  intros H. apply Forall_forall. intros c Hc. right.
  unfold blank in H. rewrite forallb_forall in H. now apply H.
Qed.

Lemma filler_toLowerCase (tail : jsstring) :
  Forall filler tail -> Forall filler (toLowerCase tail).
Proof.
  intros H. apply Forall_map. eapply Forall_impl; [|exact H].
  intros c [-> | Hc]; [now left | right; now rewrite lower_char_space].
Qed.

Lemma nonword_foreign (p tail : jsstring) :
  forallb Regex.is_word_char p = true ->
  Forall nonword tail -> Forall (foreign_to p) tail.
Proof.
  intros Hp. apply Forall_impl. intros c Hc a Ha.
  rewrite forallb_forall in Hp. specialize (Hp a Ha).
  destruct (Ascii.eqb a c) eqn:E; [|reflexivity].
  apply Ascii.eqb_eq in E. subst c. unfold nonword in Hc. congruence.
Qed.

Lemma filler_foreign (p tail : jsstring) :
  incl p marker_units -> Forall filler tail -> Forall (foreign_to p) tail.
Proof.
  intros Hp. apply Forall_impl. intros c Hc a Ha.
  specialize (Hp a Ha). destruct Hc as [-> | Hc].
  - simpl in Hp. destruct Hp as [<- | [<- | [<- | []]]]; reflexivity.
  - apply space_not_punct; [|exact Hc]. now right.
Qed.

(** ** The rules of the sanitizer *)

Lemma sanitizeSql_first_violation (sql : value) :
  sanitizeSql sql =
  match first_violation sql with
  | Some r => Err (rule_error r)
  | None => Ok (strip_semicolon (trimmed_text sql))
  end.
Proof.
  destruct sql as [| |b|n|s|l|f]; try reflexivity;
    try (destruct b; reflexivity);
    try (destruct n; reflexivity).
  destruct s as [|c s]; [reflexivity|].
  unfold sanitizeSql, first_violation, rules_in_order, violates, find.
  cbn [truthy truthy_string typeof_is_string negb orb trimmed_text].
  destruct (startsWith "select" (toLowerCase (trim (c :: s)))); simpl;
    [|reflexivity].
  destruct (1 <? List.length (statements (trim (c :: s))))%nat;
    [reflexivity|].
  destruct (Regex.test banned (toLowerCase (trim (c :: s)))); [reflexivity|].
  destruct (includes _ _ || includes _ _); reflexivity.
Qed.

Example sanitize_select_semicolon :
  sanitizeSql (VStr "select 1;") = Ok (lit "select 1").
Proof. reflexivity. Qed.

Example sanitize_mixed_case :
  sanitizeSql (VStr "  SeLeCT 1; select 2  ") = Err MultipleStatements.
Proof. reflexivity. Qed.

Example sanitize_identifier_with_banned_prefix :
  sanitizeSql (VStr "select updated_at from t") = Ok (lit "select updated_at from t").
Proof. reflexivity. Qed.

Example sanitize_comment_after_identifier :
  sanitizeSql (VStr "select updated from t -- x") = Err CommentsNotAllowed.
Proof. reflexivity. Qed.

Example sanitize_not_a_string :
  sanitizeSql (VNum 5) = Err SqlMissing
  /\ sanitizeSql VNull = Err SqlMissing
  /\ sanitizeSql (VObj []) = Err SqlMissing.
Proof. repeat split. Qed.

Example sanitize_white_space_only :
  sanitizeSql (VStr "   ") = Err NotASelect.
Proof. reflexivity. Qed.

Lemma sanitizeSql_ok (s r : jsstring) :
  sanitizeSql (VStr s) = Ok r <->
  s <> []
  /\ (forall q, In q rules_in_order -> violates q (VStr s) = false)
  /\ r = strip_semicolon (trim s).
Proof.
  rewrite sanitizeSql_first_violation. unfold first_violation.
  destruct (find _ rules_in_order) as [q|] eqn:F.
  - split; [discriminate|]. intros (_ & H & _). exfalso.
    apply find_some in F. destruct F as (Hin & Hv).
    rewrite (H q Hin) in Hv. discriminate Hv.
  - split.
    + intros H. injection H as <-.
      assert (Hall : forall q, In q rules_in_order ->
                               violates q (VStr s) = false).
      { intros q Hq. pose proof (find_none _ _ F q Hq) as Hn. exact Hn. }
      split; [|split; [exact Hall | reflexivity]].
      specialize (Hall NonEmptyString (or_introl eq_refl)).
      intros ->. discriminate Hall.
    + intros (_ & _ & ->). reflexivity.
Qed.

(** Rules 2 to 5 do not see semicolons and white space appended to the
    trimmed text. *)
Lemma violates_filler (q : rule) (s1 s2 tail : jsstring) :
  q <> NonEmptyString ->
  trim s2 = trim s1 ++ tail -> Forall filler tail ->
  violates q (VStr s2) = violates q (VStr s1).
Proof.
  intros Hq E Ht. unfold violates, trimmed_text. rewrite E.
  rewrite toLowerCase_app.
  pose proof (filler_toLowerCase tail Ht) as Hl.
  destruct q; [now elim Hq| | | |].
  - f_equal. apply startsWith_app_foreign; [discriminate|].
    apply nonword_foreign; [reflexivity | now apply filler_nonword].
  - now rewrite !statements_nstmts, nstmts_app_filler.
  - set (L := toLowerCase (trim s1)).
    destruct (Regex.test banned (L ++ toLowerCase tail)) eqn:B1;
      destruct (Regex.test banned L) eqn:B2; try reflexivity; exfalso.
    + apply banned_test_spec in B1. destruct B1 as (w & Hin & Hw).
      pose proof (proj1 (Forall_forall _ _) banned_words_are_words w Hin) as W.
      apply (whole_word_app_tail w L _ W (filler_nonword _ Hl)) in Hw.
      assert (Regex.test banned L = true)
        by (apply banned_test_spec; now exists w).
      congruence.
    + apply banned_test_spec in B2. destruct B2 as (w & Hin & Hw).
      pose proof (proj1 (Forall_forall _ _) banned_words_are_words w Hin) as W.
      apply (whole_word_app_tail w L _ W (filler_nonword _ Hl)) in Hw.
      assert (Regex.test banned (L ++ toLowerCase tail) = true)
        by (apply banned_test_spec; now exists w).
      congruence.
  - rewrite !includes_app_foreign; try discriminate; try reflexivity;
      apply filler_foreign; try exact Hl;
      intros a [<- | [<- | []]]; simpl; auto.
Qed.

Lemma strip_semicolon_cases (t : jsstring) :
  strip_semicolon t = t \/ t = strip_semicolon t ++ [";"%char].
Proof.
  unfold strip_semicolon, slice_0_m1.
  destruct (endsWith ";" t) eqn:E; [right | now left].
  apply endsWith_char in E. destruct E as (r & ->).
  now rewrite removelast_last.
Qed.

Lemma strip_semicolon_app (r : jsstring) :
  strip_semicolon (r ++ [";"%char]) = r.
Proof.
  unfold strip_semicolon, slice_0_m1.
  assert (E : endsWith ";" (r ++ [";"%char]) = true)
    by (apply endsWith_char; now exists r).
  rewrite E. apply removelast_last.
Qed.

(** A text that passes rule 2 starts with a code unit that is not white
    space. *)
Lemma select_head (t : jsstring) :
  startsWith "select" (toLowerCase t) = true ->
  exists c t', t = c :: t' /\ is_space c = false /\ c <> ";"%char.
Proof.
  destruct t as [|c t']; [discriminate|]. simpl.
  intros H. apply andb_true_iff in H. destruct H as (H & _).
  exists c, t'. split; [reflexivity|].
  change (Ascii.eqb "s" (lower_char c) = true) in H.
  apply Ascii.eqb_eq in H. split.
  - rewrite <- lower_char_space, <- H. reflexivity.
  - intros ->. discriminate H.
Qed.

Lemma rules_hold (s r : jsstring) (q : rule) :
  sanitizeSql (VStr s) = Ok r -> violates q (VStr s) = false.
Proof.
  intros H. apply sanitizeSql_ok in H. destruct H as (_ & H & _).
  apply H. destruct q; simpl; auto 6.
Qed.

(** The text of a successful result is the trimmed input up to a run of
    semicolons and white space. *)
Lemma result_prefix (s r : jsstring) :
  sanitizeSql (VStr s) = Ok r ->
  exists c r' tail,
    r = c :: r' /\ is_space c = false
    /\ trim s = trim r ++ tail /\ Forall filler tail.
Proof.
  intros H. pose proof (rules_hold s r StartsWithSelect H) as Hsel.
  apply sanitizeSql_ok in H. destruct H as (_ & _ & Hr).
  unfold violates, trimmed_text in Hsel. apply negb_false_iff in Hsel.
  destruct (select_head _ Hsel) as (c & t' & Et & Hc & Hsemi).
  destruct (strip_semicolon_cases (trim s)) as [E | E]; rewrite <- Hr in E.
  - exists c, t', []. rewrite E, trim_idem, app_nil_r.
    repeat split; [exact Et | exact Hc | constructor].
  - destruct r as [|x r'].
    + rewrite E in Et. injection Et as <- _. now elim Hsemi.
    + rewrite E in Et. injection Et as -> _.
      destruct (trimEnd_split (c :: r')) as (ws & Hs & Hws).
      exists c, r', (ws ++ [";"%char]).
      split; [reflexivity|]. split; [exact Hc|]. split.
      * unfold trim at 2. rewrite (trimStart_cons_nonspace c r' Hc).
        rewrite E, app_assoc. now rewrite <- Hs.
      * apply Forall_app. split; [now apply blank_filler|].
        constructor; [now left | constructor].
Qed.

(** ** The sanitized query *)

(** C1, as the specification states it, fails on the separator clause:
    [sanitizeSql] accepts [select 1;;;] and returns [select 1;;], a text
    that still holds a semicolon once its terminating semicolon is set
    aside. *)
Lemma sanitized_query_extra_semicolons :
  sanitizeSql (VStr "select 1;;;") = Ok (lit "select 1;;")
  /\ includes ";"
       (strip_semicolon (toLowerCase (trim (lit "select 1;;")))) = true.
Proof. split; reflexivity. Qed.

(** C1 (amended): whenever [sanitizeSql] succeeds, the returned string,
    lower-cased and trimmed (in either order), starts with [select];
    split on semicolons it has at most one fragment that is not white
    space, that is, it is a body free of semicolons followed by semicolons
    and white space only; it holds neither [--] nor [/*]; no banned word
    occurs in it as a whole word; and the returned string is the trimmed
    input with at most one trailing semicolon removed. *)
Theorem sanitized_query_invariant (s r : jsstring) :
  sanitizeSql (VStr s) = Ok r ->
  let t := toLowerCase (trim r) in
  trim (toLowerCase r) = t
  /\ startsWith "select" t = true
  /\ List.length (statements t) <= 1
  /\ (exists body tail,
        t = body ++ tail /\ ~ In ";"%char body /\ Forall filler tail)
  /\ includes "--" t = false
  /\ includes "/*" t = false
  /\ (forall w, In w banned_words -> ~ whole_word w t)
  /\ (r = trim s \/ trim s = r ++ lit ";").
Proof.
  intros H t.
  destruct (result_prefix s r H) as (c & r' & tail & Er & Hc & Et & Ht).
  assert (V : forall q, q <> NonEmptyString -> violates q (VStr r) = false).
  { intros q Hq. rewrite <- (violates_filler q r s tail Hq Et Ht).
    exact (rules_hold s r q H). }
  assert (Hsel : startsWith "select" t = true).
  { specialize (V StartsWithSelect ltac:(discriminate)).
    now apply negb_false_iff in V. }
  assert (Hn : nstmts false t <= 1).
  { specialize (V SingleStatement ltac:(discriminate)).
    unfold violates, trimmed_text in V. apply Nat.ltb_ge in V.
    rewrite statements_nstmts in V. unfold t.
    now rewrite nstmts_toLowerCase. }
  split; [apply trim_toLowerCase|].
  split; [exact Hsel|].
  split; [now rewrite statements_nstmts|].
  split.
  { destruct (proj1 (startsWith_spec _ _) Hsel) as (u & Eu).
    change (t = "s"%char :: (lit "elect" ++ u)) in Eu.
    rewrite Eu in Hn |- *. set (t' := lit "elect" ++ u) in *.
    change (nstmts true t' <= 1) in Hn.
    destruct (nstmts_one_shape t' Hn) as (body & tl & -> & Hb & Hf).
    exists ("s"%char :: body), tl. repeat split; [|exact Hf].
    intros [Hs | Hin]; [discriminate Hs | now apply Hb]. }
  pose proof (V NoComment ltac:(discriminate)) as Hcm.
  apply orb_false_iff in Hcm. destruct Hcm as (Hc1 & Hc2).
  split; [exact Hc1|]. split; [exact Hc2|]. split.
  - intros w Hin Hw.
    specialize (V NoBannedWord ltac:(discriminate)).
    assert (Regex.test banned t = true)
      by (apply banned_test_spec; now exists w).
    unfold violates, trimmed_text in V. fold t in V. congruence.
  - apply sanitizeSql_ok in H. destruct H as (_ & _ & ->).
    destruct (strip_semicolon_cases (trim s)) as [E | E]; auto.
Qed.

Lemma sanitized_query_invariant_witness :
  let t := toLowerCase (trim (lit "SELECT a FROM t ")) in
  trim (toLowerCase (lit "SELECT a FROM t ")) = t
  /\ startsWith "select" t = true
  /\ List.length (statements t) <= 1
  /\ (exists body tail,
        t = body ++ tail /\ ~ In ";"%char body /\ Forall filler tail)
  /\ includes "--" t = false
  /\ includes "/*" t = false
  /\ (forall w, In w banned_words -> ~ whole_word w t)
  /\ (lit "SELECT a FROM t " = trim (lit "  SELECT a FROM t ; ")
      \/ trim (lit "  SELECT a FROM t ; ") = lit "SELECT a FROM t " ++ lit ";").
Proof.
  apply (sanitized_query_invariant (lit "  SELECT a FROM t ; ")).
  reflexivity.
Defined.

(** ** Banned words *)

Lemma whole_word_trim (w s : jsstring) :
  is_word w ->
  whole_word w (toLowerCase s) <-> whole_word w (toLowerCase (trim s)).
Proof.
  intros W.
  destruct (trimStart_split s) as (ws1 & H1 & B1).
  destruct (trimEnd_split (trimStart s)) as (ws2 & H2 & B2).
  fold (trim s) in H2.
  rewrite H1 at 1. rewrite H2, !toLowerCase_app.
  rewrite whole_word_app_head, whole_word_app_tail; try exact W;
    try (apply filler_nonword, filler_toLowerCase, blank_filler; assumption).
  reflexivity.
Qed.

(** C2: an input that passes rules 1 to 3 and whose lower-cased text
    holds a banned word as a whole word, wherever it stands, is rejected
    with ForbiddenOperation; so is the select whose string literal reads
    'update me'. *)
Theorem banned_word_forbidden :
  (forall s w : jsstring,
      s <> [] ->
      startsWith "select" (toLowerCase (trim s)) = true ->
      List.length (statements (trim s)) <= 1 ->
      In w banned_words ->
      whole_word w (toLowerCase s) ->
      sanitizeSql (VStr s) = Err ForbiddenOperation)
  /\ sanitizeSql (VStr "select * from t where name = 'update me'")
     = Err ForbiddenOperation.
Proof.
  split; [|reflexivity].
  intros s w Hne Hsel Hn Hin Hw.
  pose proof (proj1 (Forall_forall _ _) banned_words_are_words w Hin) as W.
  apply (whole_word_trim w s W) in Hw.
  assert (B : Regex.test banned (toLowerCase (trim s)) = true)
    by (apply banned_test_spec; now exists w).
  rewrite sanitizeSql_first_violation.
  unfold first_violation, rules_in_order, find, violates, trimmed_text.
  destruct s as [|c s]; [now elim Hne|].
  rewrite Hsel, B. apply Nat.ltb_ge in Hn. rewrite Hn. reflexivity.
Qed.

Lemma banned_word_forbidden_witness :
  sanitizeSql (VStr "Select id From t Where note = 'please DROP it'")
  = Err ForbiddenOperation.
Proof.
  apply (proj1 banned_word_forbidden
           (lit "Select id From t Where note = 'please DROP it'")
           (lit "drop")).
  - discriminate.
  - reflexivity.
  - vm_compute. lia.
  - do 4 right. left. reflexivity.
  - exists (lit "select id from t where note = 'please "), (lit " it'").
    repeat split.
Defined.

(** ** Rule 2: the select prefix *)

(** C3, as the specification states it, fails twice: the empty string
    does not start with [select] and is rejected with SqlMissing, and
    [selection from t], whose first word is longer than [select], is not
    rejected at all. *)
Lemma select_is_a_prefix_test :
  sanitizeSql (VStr "selection from t") = Ok (lit "selection from t")
  /\ startsWith "select" (toLowerCase (trim [])) = false
  /\ sanitizeSql (VStr []) = Err SqlMissing.
Proof. repeat split. Qed.

(** C3 (amended): a string is rejected with NotASelect exactly when it
    is not empty and its trimmed, lower-cased text does not start with
    the six code units [select]; the test is a prefix test, so an input
    whose trimmed text begins with a longer word such as [selection] is
    not rejected with NotASelect. *)
Theorem not_a_select_iff :
  (forall s : jsstring,
      sanitizeSql (VStr s) = Err NotASelect <->
      s <> [] /\ startsWith "select" (toLowerCase (trim s)) = false)
  /\ (forall s rest : jsstring,
         toLowerCase (trim s) = lit "select" ++ rest ->
         sanitizeSql (VStr s) <> Err NotASelect).
Proof.
  assert (A : forall s : jsstring,
             sanitizeSql (VStr s) = Err NotASelect <->
             s <> [] /\ startsWith "select" (toLowerCase (trim s)) = false).
  { intros s. rewrite sanitizeSql_first_violation.
    unfold first_violation, rules_in_order, find, violates, trimmed_text.
    destruct s as [|c s].
    - split; [discriminate | intros (H & _); now elim H].
    - destruct (startsWith "select" (toLowerCase (trim (c :: s)))); simpl.
      + split; [|intros (_ & H); discriminate H].
        destruct (1 <? _)%nat; [discriminate|].
        destruct (Regex.test _ _); [discriminate|].
        destruct (includes _ _ || includes _ _); discriminate.
      + split; [intros _; split; [discriminate | reflexivity] | reflexivity]. }
  split; [exact A|].
  intros s rest E H. apply A in H. destruct H as (_ & H).
  assert (startsWith "select" (toLowerCase (trim s)) = true)
    by (apply startsWith_spec; now exists rest).
  congruence.
Qed.

Lemma not_a_select_iff_witness :
  sanitizeSql (VStr " Selection of rows ") <> Err NotASelect.
Proof.
  apply (proj2 not_a_select_iff (lit " Selection of rows ")
           (lit "ion of rows")).
  reflexivity.
Defined.

(** ** Rule 3: one statement *)

(** C4, as the specification states it, fails on texts that are not
    selects: rule 2 is tested first. *)
Lemma two_statements_not_a_select :
  1 < List.length (statements (trim (lit "drop table a; drop table b")))
  /\ sanitizeSql (VStr "drop table a; drop table b") = Err NotASelect.
Proof. split; [vm_compute; lia | reflexivity]. Qed.

Lemma trim_app_semicolon (s : jsstring) :
  trim (s ++ lit ";") = trimStart s ++ lit ";".
Proof.
  unfold trim, lit. simpl.
  rewrite trimStart_app_nonspace by reflexivity.
  apply trimEnd_app_nonspace. reflexivity.
Qed.

(** C4 (amended): a string whose trimmed, lower-cased text starts with
    [select] and whose trimmed text, split on semicolons, has more than
    one fragment that is not white space, is rejected with
    MultipleStatements, as [select 1; select 2] is; and a string accepted
    by [sanitizeSql] is still accepted with a semicolon appended, the
    result being the text without that semicolon (and without leading
    white space), as for [select 1;]. *)
Theorem multiple_statements :
  (forall s : jsstring,
      startsWith "select" (toLowerCase (trim s)) = true ->
      1 < List.length (statements (trim s)) ->
      sanitizeSql (VStr s) = Err MultipleStatements)
  /\ sanitizeSql (VStr "select 1; select 2") = Err MultipleStatements
  /\ (forall s r : jsstring,
         sanitizeSql (VStr s) = Ok r ->
         sanitizeSql (VStr (s ++ lit ";")) = Ok (trimStart s))
  /\ sanitizeSql (VStr "select 1;") = Ok (lit "select 1").
Proof.
  split; [|split; [reflexivity | split; [|reflexivity]]].
  - intros s Hsel Hn. rewrite sanitizeSql_first_violation.
    unfold first_violation, rules_in_order, find, violates, trimmed_text.
    destruct s as [|c s]; [discriminate Hsel|].
    rewrite Hsel. apply Nat.ltb_lt in Hn. rewrite Hn. reflexivity.
  - intros s r H.
    destruct (trimEnd_split (trimStart s)) as (ws & Hs & Hws).
    fold (trim s) in Hs.
    assert (E : trim (s ++ lit ";") = trim s ++ (ws ++ lit ";")).
    { rewrite trim_app_semicolon, app_assoc. now rewrite <- Hs. }
    assert (F : Forall filler (ws ++ lit ";")).
    { apply Forall_app. split; [now apply blank_filler|].
      constructor; [now left | constructor]. }
    apply sanitizeSql_ok. split; [now destruct s|]. split.
    + intros q _.
      assert (Q : q = NonEmptyString \/ q <> NonEmptyString)
        by (destruct q; auto; right; discriminate).
      destruct Q as [-> | Q]; [now destruct s|].
      rewrite (violates_filler q s _ _ Q E F).
      exact (rules_hold s r q H).
    + rewrite trim_app_semicolon. symmetry. apply strip_semicolon_app.
Qed.

Lemma multiple_statements_witness :
  sanitizeSql (VStr "SELECT a FROM t; SELECT b FROM u;")
  = Err MultipleStatements
  /\ sanitizeSql (VStr (lit " select a from t" ++ lit ";"))
     = Ok (trimStart (lit " select a from t")).
Proof.
  split.
  - apply (proj1 multiple_statements
             (lit "SELECT a FROM t; SELECT b FROM u;")).
    + reflexivity.
    + vm_compute. lia.
  - apply (proj1 (proj2 (proj2 multiple_statements))
             (lit " select a from t") (lit "select a from t")).
    reflexivity.
Defined.

(** ** Rule 5: comment markers *)

(** C5, as the specification states it, fails on its own example: the
    word [comment] is banned, and rule 4 is tested before rule 5. *)
Lemma comment_example_is_forbidden :
  includes "--" (lit "select 1 -- comment") = true
  /\ sanitizeSql (VStr "select 1 -- comment") = Err ForbiddenOperation.
Proof. split; reflexivity. Qed.

(** C5 (amended): a string that passes rules 1 to 4 and holds [--] or
    [/*] anywhere, whatever the case of the text around it, is rejected
    with CommentsNotAllowed, as [select 1 -- note] is. *)
Theorem comments_not_allowed :
  (forall s : jsstring,
      startsWith "select" (toLowerCase (trim s)) = true ->
      List.length (statements (trim s)) <= 1 ->
      Regex.test banned (toLowerCase (trim s)) = false ->
      includes "--" s = true \/ includes "/*" s = true ->
      sanitizeSql (VStr s) = Err CommentsNotAllowed)
  /\ sanitizeSql (VStr "select 1 -- note") = Err CommentsNotAllowed.
Proof.
  split; [|reflexivity].
  intros s Hsel Hn Hb Hc.
  assert (C : includes "--" (toLowerCase (trim s))
              || includes "/*" (toLowerCase (trim s)) = true).
  { apply orb_true_iff.
    destruct Hc as [Hc | Hc]; [left | right];
      rewrite includes_toLowerCase, includes_trim; try exact Hc;
      try discriminate;
      intros a [<- | [<- | []]]; simpl; auto. }
  rewrite sanitizeSql_first_violation.
  unfold first_violation, rules_in_order, find, violates, trimmed_text.
  destruct s as [|c s]; [discriminate Hsel|].
  rewrite Hsel, Hb, C. apply Nat.ltb_ge in Hn. rewrite Hn. reflexivity.
Qed.

Lemma comments_not_allowed_witness :
  sanitizeSql (VStr "  SELECT a /* hidden */ FROM t") = Err CommentsNotAllowed.
Proof.
  apply (proj1 comments_not_allowed (lit "  SELECT a /* hidden */ FROM t")).
  - reflexivity.
  - vm_compute. lia.
  - reflexivity.
  - right. reflexivity.
Defined.

(** ** Rule order *)

(** C6: [sanitizeSql] fails with the error of a rule exactly when that
    rule is violated and no rule before it in the order 1 to 5 is; it
    succeeds exactly when no rule is violated.  A select holding both a
    banned word and [--] is rejected for the banned word, and one that
    also holds a second statement is rejected for the second statement. *)
Theorem first_failing_rule_wins :
  (forall (sql : value) (e : sanitize_error),
      sanitizeSql sql = Err e <->
      exists q,
        violates q sql = true /\ e = rule_error q
        /\ forall q', rule_index q' < rule_index q -> violates q' sql = false)
  /\ (forall sql : value,
         (exists r, sanitizeSql sql = Ok r) <->
         forall q, violates q sql = false)
  /\ (violates NoBannedWord (VStr "select 1 -- drop it") = true
      /\ violates NoComment (VStr "select 1 -- drop it") = true
      /\ sanitizeSql (VStr "select 1 -- drop it") = Err ForbiddenOperation)
  /\ (violates SingleStatement (VStr "select 1; drop table t -- x") = true
      /\ violates NoBannedWord (VStr "select 1; drop table t -- x") = true
      /\ violates NoComment (VStr "select 1; drop table t -- x") = true
      /\ sanitizeSql (VStr "select 1; drop table t -- x")
         = Err MultipleStatements).
Proof.
  split; [|split; [|split; repeat split]].
  - intros sql e. rewrite sanitizeSql_first_violation.
    unfold first_violation, rules_in_order, find.
    destruct (violates NonEmptyString sql) eqn:V1;
      [|destruct (violates StartsWithSelect sql) eqn:V2;
        [|destruct (violates SingleStatement sql) eqn:V3;
          [|destruct (violates NoBannedWord sql) eqn:V4;
            [|destruct (violates NoComment sql) eqn:V5]]]].
    all: split;
      [ intros H;
        first [ discriminate H
              | injection H as <-;
                eexists; (split; [eassumption|]); (split; [reflexivity|]);
                intros q' Hq'; destruct q'; simpl in Hq'; try lia; assumption ]
      | intros (q & Hq & -> & Hmin);
        try (f_equal;
             destruct q; try reflexivity; try congruence; exfalso) ].
    all: try (match goal with
              | Hv : violates ?f ?x = true |- False =>
                  assert (violates f x = false)
                    by (apply Hmin; simpl; lia); congruence
              end).
  - intros sql. rewrite sanitizeSql_first_violation.
    unfold first_violation. split.
    + intros (r & H) q.
      destruct (find _ rules_in_order) eqn:F; [discriminate H|].
      apply (find_none _ _ F). destruct q; simpl; auto 6.
    + intros H. destruct (find _ rules_in_order) as [q|] eqn:F.
      * apply find_some in F. destruct F as (_ & F).
        rewrite (H q) in F. discriminate F.
      * eexists. reflexivity.
Qed.

(** ** Idempotence *)

(** C7: the output of a successful [sanitizeSql], with a semicolon
    appended, is accepted again and yields the same output. *)
Theorem sanitize_idempotent (s r : jsstring) :
  sanitizeSql (VStr s) = Ok r ->
  sanitizeSql (VStr (r ++ lit ";")) = Ok r.
Proof.
  intros H.
  destruct (result_prefix s r H) as (c & r' & _ & Er & Hc & _ & _).
  assert (T : trim (r ++ lit ";") = r ++ lit ";").
  { rewrite trim_app_semicolon, Er.
    now rewrite (trimStart_cons_nonspace c r' Hc). }
  assert (E : exists tail,
             trim (r ++ lit ";") = trim s ++ tail /\ Forall filler tail).
  { rewrite T. pose proof H as H'. apply sanitizeSql_ok in H'.
    destruct H' as (_ & _ & Hr).
    destruct (strip_semicolon_cases (trim s)) as [E | E]; rewrite <- Hr in E.
    - exists (lit ";"). rewrite E. split; [reflexivity|].
      constructor; [now left | constructor].
    - exists []. rewrite app_nil_r. split; [now symmetry | constructor]. }
  destruct E as (tail & E & F).
  apply sanitizeSql_ok. split; [now destruct r|]. split.
  - intros q _.
    assert (Q : q = NonEmptyString \/ q <> NonEmptyString)
      by (destruct q; auto; right; discriminate).
    destruct Q as [-> | Q]; [now destruct r|].
    rewrite (violates_filler q s _ _ Q E F).
    exact (rules_hold s r q H).
  - rewrite T. symmetry. apply strip_semicolon_app.
Qed.

Lemma sanitize_idempotent_witness :
  sanitizeSql (VStr (lit "Select a From t ;" ++ lit ";"))
  = Ok (lit "Select a From t ;").
Proof.
  apply (sanitize_idempotent (lit "  Select a From t ;; ")).
  reflexivity.
Defined.

(** ** The schema cache *)

(** [loadSchema], path by path. *)
Lemma loadSchema_paths (e : env) (w : world) :
  loadSchema e w =
  match cache_hit (date_now e) (cached w) with
  | Some s => (Ok s, w)
  | None =>
      match pool_connect e with
      | Err msg => (Err msg, log w [PoolConnect])
      | Ok _ =>
          match columns_query e, counts_query e with
          | Ok cols, Ok counts =>
              (Ok (render_schema cols counts),
               {| cached := {| cachedSchema := Some (render_schema cols counts);
                               cachedSchemaLoadedAt := date_now e |};
                  trace := trace w ++ refresh_events |})
          | Err msg, _ => (Err msg, log w refresh_events)
          | Ok _, Err msg => (Err msg, log w refresh_events)
          end
      end
  end.
Proof.
  destruct w as [[cs at_] tr].
  unfold loadSchema, cache_hit, metadata_queries, try_finally, bind,
    read_cache, write_cache, emit, settle, ret, log, refresh_events.
  simpl.
  destruct cs as [s|];
    [destruct (truthy_string s && _); [reflexivity|] |];
    (destruct (pool_connect e) as [[]|m]; [|reflexivity]);
    (destruct (columns_query e) as [cols|m]; simpl;
     [destruct (counts_query e) as [counts|m]; simpl|]);
    now rewrite <- !app_assoc.
Qed.

Lemma cache_hit_fresh (now : Z) (c : cache) (s : jsstring) :
  cachedSchema c = Some s -> s <> [] ->
  (now - cachedSchemaLoadedAt c < SCHEMA_CACHE_MS)%Z ->
  cache_hit now c = Some s.
Proof.
  intros E Hs Hage. unfold cache_hit. rewrite E.
  apply Z.ltb_lt in Hage. rewrite Hage.
  destruct s; [now elim Hs | reflexivity].
Qed.

(** A snapshot that is not empty and younger than five minutes is
    returned as it is: no event, no change of the cache. *)
Lemma loadSchema_cached (e : env) (w : world) (s : jsstring) :
  cachedSchema (cached w) = Some s -> s <> [] ->
  (date_now e - cachedSchemaLoadedAt (cached w) < SCHEMA_CACHE_MS)%Z ->
  loadSchema e w = (Ok s, w).
Proof.
  intros E Hs Hage. rewrite loadSchema_paths.
  now rewrite (cache_hit_fresh _ _ s E Hs Hage).
Qed.

(** Without a cached text to answer with, a successful call runs both
    queries once, renders the snapshot, stores it with the time of the
    call and returns it. *)
Lemma loadSchema_refreshed (e : env) (w : world)
      (cols : list column_row) (counts : list count_row) :
  cache_hit (date_now e) (cached w) = None ->
  pool_connect e = Ok tt ->
  columns_query e = Ok cols -> counts_query e = Ok counts ->
  loadSchema e w =
  (Ok (render_schema cols counts),
   {| cached := {| cachedSchema := Some (render_schema cols counts);
                   cachedSchemaLoadedAt := date_now e |};
      trace := trace w ++ refresh_events |}).
Proof.
  intros H Hc Hq1 Hq2. rewrite loadSchema_paths.
  now rewrite H, Hc, Hq1, Hq2.
Qed.

(** Two calls inside the window: when the first one went to the database
    and produced a snapshot that is not empty, the second returns the
    same text with no further query. *)
Lemma loadSchema_twice (e1 e2 : env) (w w1 : world) (s : jsstring) :
  cache_hit (date_now e1) (cached w) = None ->
  loadSchema e1 w = (Ok s, w1) -> s <> [] ->
  (date_now e2 - date_now e1 < SCHEMA_CACHE_MS)%Z ->
  loadSchema e2 w1 = (Ok s, w1).
Proof.
  intros C H Hs Hlt. rewrite loadSchema_paths, C in H.
  destruct (pool_connect e1) as [[]|m]; [|discriminate].
  destruct (columns_query e1) as [cols|m]; [|discriminate].
  destruct (counts_query e1) as [counts|m]; [|discriminate].
  injection H as <- <-. apply loadSchema_cached; simpl; auto.
Qed.

(** One line per table, in order of first appearance; the estimate is
    left out where the row-count listing has none. *)
Example render_schema_example :
  render_schema users_orders_columns users_counts =
  lit "public.users (est_rows ~42): id (integer), name (text)"
  ++ newline ++ lit "public.orders: id (integer)".
Proof. reflexivity. Qed.

(** C8, first half, fails when the snapshot is the empty string (a
    database with no table outside the system schemas): the test
    [cachedSchema && ...] takes the empty string for a missing cache.
    One second after the snapshot was cached, a second call runs both
    metadata queries again, and returns another text if a table was
    created in between. *)
Theorem empty_snapshot_is_not_cached :
  let first := loadSchema (database 1000 []) cold_start in
  let second := loadSchema (database 2000 []) (snd first) in
  let second' :=
    loadSchema (database 2000 users_orders_columns) (snd first) in
  fst first = Ok []
  /\ cached (snd first)
     = {| cachedSchema := Some []; cachedSchemaLoadedAt := 1000 |}
  /\ (2000 - 1000 < SCHEMA_CACHE_MS)%Z
  /\ trace (snd first) = refresh_events
  /\ fst second = Ok []
  /\ trace (snd second) = refresh_events ++ refresh_events
  /\ fst second'
     = Ok (lit "public.users: id (integer), name (text)"
           ++ newline ++ lit "public.orders: id (integer)")
  /\ fst second' <> fst first.
Proof.
  repeat split; try reflexivity. discriminate.
Qed.

(** ** The text of a snapshot *)

Lemma jsstring_eqb_refl (a : jsstring) : jsstring_eqb a a = true.
Proof. unfold jsstring_eqb. now destruct (list_eq_dec ascii_dec a a). Qed.

Lemma jsstring_eqb_neq (a b : jsstring) : a <> b -> jsstring_eqb a b = false.
Proof. unfold jsstring_eqb. now destruct (list_eq_dec ascii_dec a b). Qed.

Lemma jsstring_eqb_eq (a b : jsstring) : jsstring_eqb a b = true -> a = b.
Proof.
  unfold jsstring_eqb. now destruct (list_eq_dec ascii_dec a b).
Qed.

Lemma JsMap_set_fresh {V} (k : jsstring) (v : V) (m : JsMap.t V) :
  JsMap.get k m = None -> JsMap.set k v m = m ++ [(k, v)].
Proof.
  induction m as [|[k' v'] m IH]; simpl; [reflexivity|].
  destruct (jsstring_eqb k k'); [discriminate|].
  intros H. now rewrite (IH H).
Qed.

Lemma JsMap_get_last {V} (k : jsstring) (v : V) (m : JsMap.t V) :
  JsMap.get k m = None -> JsMap.get k (m ++ [(k, v)]) = Some v.
Proof.
  induction m as [|[k' v'] m IH]; simpl.
  - now rewrite jsstring_eqb_refl.
  - destruct (jsstring_eqb k k'); [discriminate | exact IH].
Qed.

Lemma JsMap_set_last {V} (k : jsstring) (v v' : V) (m : JsMap.t V) :
  JsMap.get k m = None ->
  JsMap.set k v' (m ++ [(k, v)]) = m ++ [(k, v')].
Proof.
  induction m as [|[k' v0] m IH]; simpl.
  - now rewrite jsstring_eqb_refl.
  - destruct (jsstring_eqb k k'); [discriminate|].
    intros H. now rewrite (IH H).
Qed.

Lemma JsMap_get_other {V} (k k' : jsstring) (v : V) (m : JsMap.t V) :
  k <> k' -> JsMap.get k (m ++ [(k', v)]) = JsMap.get k m.
Proof.
  intros Hk. induction m as [|[k0 v0] m IH]; simpl.
  - now rewrite (jsstring_eqb_neq k k' Hk).
  - now rewrite IH.
Qed.

(** The first row of a table opens its entry at the end of the map. *)
Lemma add_column_first (counts : list count_row) (m : JsMap.t table_entry)
      (schema name : jsstring) (c : jsstring * jsstring) :
  JsMap.get (table_key schema name) m = None ->
  add_column (countMap_of counts) m
    {| col_table_schema := schema; col_table_name := name;
       column_name := fst c; data_type := snd c |} =
  m ++ [(table_key schema name,
         {| columns := [column_text c];
            meta := meta_of counts (table_key schema name) |})].
Proof.
  intros H. unfold add_column, JsMap.has.
  cbn [col_table_schema col_table_name column_name data_type].
  rewrite H. cbn [negb].
  rewrite (JsMap_set_fresh (table_key schema name) _ m H).
  rewrite (JsMap_get_last (table_key schema name) _ m H).
  cbn [columns meta app].
  exact (JsMap_set_last (table_key schema name) _ _ m H).
Qed.

(** A further row of the table being read adds its column to the entry. *)
Lemma add_column_next (counts : list count_row) (m : JsMap.t table_entry)
      (entry : table_entry) (schema name : jsstring)
      (c : jsstring * jsstring) :
  JsMap.get (table_key schema name) m = None ->
  add_column (countMap_of counts) (m ++ [(table_key schema name, entry)])
    {| col_table_schema := schema; col_table_name := name;
       column_name := fst c; data_type := snd c |} =
  m ++ [(table_key schema name,
         {| columns := columns entry ++ [column_text c];
            meta := meta entry |})].
Proof.
  intros H. unfold add_column, JsMap.has.
  cbn [col_table_schema col_table_name column_name data_type].
  rewrite (JsMap_get_last (table_key schema name) entry m H). cbn [negb].
  rewrite (JsMap_get_last (table_key schema name) entry m H).
  exact (JsMap_set_last (table_key schema name) _ _ m H).
Qed.

Lemma add_columns_next (counts : list count_row) (m : JsMap.t table_entry)
      (schema name : jsstring) (cs : list (jsstring * jsstring))
      (entry : table_entry) :
  JsMap.get (table_key schema name) m = None ->
  fold_left (add_column (countMap_of counts))
    (rows_of {| tl_schema := schema; tl_name := name; tl_columns := cs |})
    (m ++ [(table_key schema name, entry)]) =
  m ++ [(table_key schema name,
         {| columns := columns entry ++ map column_text cs;
            meta := meta entry |})].
Proof.
  intros H. unfold rows_of. cbn [tl_schema tl_name tl_columns].
  revert entry. induction cs as [|c cs IH]; intros entry.
  - cbn [map fold_left]. rewrite app_nil_r. now destruct entry.
  - cbn [map fold_left].
    rewrite (add_column_next counts m entry schema name c H), IH.
    cbn [columns meta]. now rewrite <- app_assoc.
Qed.

Lemma add_table (counts : list count_row) (m : JsMap.t table_entry)
      (t : table_listing) :
  tl_columns t <> [] -> JsMap.get (key_of t) m = None ->
  fold_left (add_column (countMap_of counts)) (rows_of t) m =
  m ++ [entry_of counts t].
Proof.
  destruct t as [schema name cs]. unfold key_of, entry_of.
  cbn [tl_schema tl_name tl_columns].
  destruct cs as [|c cs]; [easy|]. intros _ H.
  pose proof (add_columns_next counts m schema name cs
                {| columns := [column_text c];
                   meta := meta_of counts (table_key schema name) |} H) as A.
  unfold rows_of in *. cbn [tl_schema tl_name tl_columns] in *.
  cbn [map fold_left].
  rewrite (add_column_first counts m schema name c H).
  exact A.
Qed.

Lemma add_tables (counts : list count_row) (ts : list table_listing)
      (m : JsMap.t table_entry) :
  NoDup (map key_of ts) ->
  Forall (fun t => tl_columns t <> []) ts ->
  (forall t, In t ts -> JsMap.get (key_of t) m = None) ->
  fold_left (add_column (countMap_of counts)) (listing_rows ts) m =
  m ++ map (entry_of counts) ts.
Proof.
  revert m. induction ts as [|t ts IH]; intros m Hnd Hne Hm; simpl.
  - now rewrite app_nil_r.
  - inversion Hnd as [|? ? Hnotin Hnd']; subst.
    inversion Hne as [|? ? Ht Hne']; subst.
    rewrite fold_left_app.
    rewrite (add_table counts m t Ht (Hm t (or_introl eq_refl))).
    rewrite IH; [now rewrite <- app_assoc | exact Hnd' | exact Hne' |].
    intros t' Hin. unfold entry_of.
    rewrite JsMap_get_other; [apply Hm; now right|].
    intros E. apply Hnotin. rewrite <- E. now apply in_map.
Qed.

(** X11: the snapshot of a listing in which every table has a column and
    no two tables share a qualified name: one line
    [schema.table (est_rows ~N): col1 (type1), col2 (type2)] per table,
    in the order of the listing, joined by newlines, the annotation being
    left out for a table without estimate. *)
Theorem render_schema_tables (counts : list count_row)
        (ts : list table_listing) :
  NoDup (map key_of ts) ->
  Forall (fun t => tl_columns t <> []) ts ->
  render_schema (listing_rows ts) counts =
  join newline (map (table_line counts) ts).
Proof.
  intros Hnd Hne. unfold render_schema, tableMap_of.
  rewrite (add_tables counts ts [] Hnd Hne) by reflexivity.
  simpl. rewrite map_map. reflexivity.
Qed.

(** ** Failure of a refresh *)

(** C10: when [loadSchema] fails, the cached snapshot and its time are
    what they were before the call; in particular when one of the two
    metadata queries fails during a refresh, in which case the call
    fails and the connection it acquired is released.  On every path
    the call either acquires no connection (a cache hit, or a failed
    [pool.connect()]) or releases the one it acquired as its last
    action. *)
Theorem loadSchema_failure_is_atomic (e : env) (w : world) :
  (forall msg,
      fst (loadSchema e w) = Err msg ->
      cached (snd (loadSchema e w)) = cached w)
  /\ (forall msg,
         cache_hit (date_now e) (cached w) = None ->
         pool_connect e = Ok tt ->
         columns_query e = Err msg \/ counts_query e = Err msg ->
         (exists m, fst (loadSchema e w) = Err m)
         /\ cached (snd (loadSchema e w)) = cached w
         /\ trace (snd (loadSchema e w)) = trace w ++ refresh_events)
  /\ (trace (snd (loadSchema e w)) = trace w
      \/ (trace (snd (loadSchema e w)) = trace w ++ [PoolConnect]
          /\ exists m, pool_connect e = Err m)
      \/ (trace (snd (loadSchema e w)) = trace w ++ refresh_events
          /\ pool_connect e = Ok tt)).
Proof.
  rewrite loadSchema_paths.
  destruct (cache_hit (date_now e) (cached w)) as [s|].
  - split; [discriminate|]. split; [discriminate|]. now left.
  - destruct (pool_connect e) as [[]|m0].
    + destruct (columns_query e) as [cols|m1];
        [destruct (counts_query e) as [counts|m2]|]; simpl.
      * split; [discriminate|]. split; [|right; right; auto].
        intros msg _ _ [H | H]; discriminate H.
      * split; [reflexivity|]. split; [|right; right; auto].
        intros msg _ _ _. split; [now exists m2 | auto].
      * split; [reflexivity|]. split; [|right; right; auto].
        intros msg _ _ _. split; [now exists m1 | auto].
    + simpl. split; [reflexivity|]. split; [discriminate|].
      right. left. split; [reflexivity | now exists m0].
Qed.

Lemma loadSchema_failure_is_atomic_witness :
  (exists m, fst (loadSchema (failing_columns 400000) stale_world) = Err m)
  /\ cached (snd (loadSchema (failing_columns 400000) stale_world))
     = cached stale_world
  /\ trace (snd (loadSchema (failing_columns 400000) stale_world))
     = trace stale_world ++ refresh_events.
Proof.
  apply (proj1 (proj2 (loadSchema_failure_is_atomic
                         (failing_columns 400000) stale_world))
           (lit "connection reset")).
  - reflexivity.
  - reflexivity.
  - left. reflexivity.
Defined.

(** ** The query route *)

Lemma buildSql_paths (e : env) (question : jsstring) (w : world) :
  buildSql e question w =
  match loadSchema e w with
  | (Err msg, w1) => (Err msg, w1)
  | (Ok schema, w1) =>
      (decode_completion e, log w1 [ChatCompletion schema question])
  end.
Proof.
  unfold buildSql, bind at 1. destruct (loadSchema e w) as [[schema|msg] w1];
    [|reflexivity].
  unfold create_completion, decode_completion, bind, emit, settle, throw, ret,
    log.
  cbv beta iota zeta.
  destruct (chat_completion e) as [[content|]|msg]; try reflexivity.
  destruct (truthy_string content); cbv beta iota zeta delta [negb];
    [|reflexivity].
  destruct (json_parse e content) as [parsed|]; [|reflexivity].
  destruct (get_prop parsed (lit "sql")) as [v|]; [|reflexivity].
  destruct (truthy v); cbv beta iota zeta delta [negb]; [|reflexivity].
  destruct (sanitizeSql v) as [sql|err]; [|reflexivity].
  destruct (get_prop parsed (lit "notes")); reflexivity.
Qed.

Lemma post_api_query_paths (e : env) (req_body : value) (q : jsstring)
      (w : world) :
  valid_question req_body q ->
  post_api_query e req_body w =
  match buildSql e (trim q) w with
  | (Err msg, w1) =>
      ({| status := 400; body := ErrorBody msg |}, log w1 [ConsoleError msg])
  | (Ok (sql, notes), w1) =>
      match pool_query e sql with
      | Err msg =>
          ({| status := 400; body := ErrorBody msg |},
           log w1 [PoolQuery sql; ConsoleError msg])
      | Ok result =>
          ({| status := 200;
              body := QueryBody sql notes (rows result) (rowCount result) |},
           log w1 [PoolQuery sql])
      end
  end.
Proof.
  intros (Hq & Ht). unfold post_api_query. rewrite Hq.
  assert (T : truthy_string (trim q) = true) by (now destruct (trim q)).
  assert (Q : truthy (VStr q) = true).
  { destruct q; [now elim Ht | reflexivity]. }
  rewrite Q, T. cbn [negb orb typeof_is_string].
  unfold try_catch, bind at 1.
  destruct (buildSql e (trim q) w) as [[[sql notes]|msg] w1];
    [|reflexivity].
  unfold bind, emit, settle, ret, console_error, respond, log. simpl.
  destruct (pool_query e sql) as [result|msg]; simpl; [reflexivity|].
  now rewrite <- app_assoc.
Qed.

Lemma question_required (e : env) (req_body : value) (w : world) :
  (forall q, question_of req_body = VStr q -> trim q = []) ->
  post_api_query e req_body w =
  ({| status := 400; body := ErrorBody (lit "Question is required") |}, w).
Proof.
  intros H. unfold post_api_query.
  destruct (question_of req_body) as [| |b|n|q|l|f]; try reflexivity.
  rewrite (H q eq_refl). cbn [truthy_string negb].
  now rewrite orb_true_r.
Qed.

(** C9: a request whose body has no question, or a question that is not
    a string, or one that is empty or white space only, is answered 400
    "Question is required" and leaves the world as it was: no call to
    the database or to the model, no change of the cache.  For a valid
    question, a failure of the schema snapshotter, of the model client,
    of the sanitizer or of the execution is answered 400 with the
    message of that failure, and the query is run only when the
    sanitizer accepted it; success is answered 200 with the sanitized
    sql, the notes, the rows and the row count. *)
Theorem post_api_query_responses (e : env) (req_body : value) (w : world) :
  ((forall q, question_of req_body = VStr q -> trim q = []) ->
   post_api_query e req_body w =
   ({| status := 400; body := ErrorBody (lit "Question is required") |}, w))
  /\ (forall q, valid_question req_body q ->
      (forall msg w1,
          loadSchema e w = (Err msg, w1) ->
          post_api_query e req_body w =
          ({| status := 400; body := ErrorBody msg |},
           log w1 [ConsoleError msg]))
      /\ (forall schema w1,
          loadSchema e w = (Ok schema, w1) ->
          (forall msg,
              decode_completion e = Err msg ->
              post_api_query e req_body w =
              ({| status := 400; body := ErrorBody msg |},
               log w1 [ChatCompletion schema (trim q); ConsoleError msg]))
          /\ (forall sql notes msg,
              decode_completion e = Ok (sql, notes) ->
              pool_query e sql = Err msg ->
              post_api_query e req_body w =
              ({| status := 400; body := ErrorBody msg |},
               log w1 [ChatCompletion schema (trim q); PoolQuery sql;
                       ConsoleError msg]))
          /\ (forall sql notes result,
              decode_completion e = Ok (sql, notes) ->
              pool_query e sql = Ok result ->
              post_api_query e req_body w =
              ({| status := 200;
                  body := QueryBody sql notes (rows result)
                                    (rowCount result) |},
               log w1 [ChatCompletion schema (trim q); PoolQuery sql]))))
  /\ (forall msg,
         chat_completion e = Err msg -> decode_completion e = Err msg)
  /\ (forall content parsed parsed_sql,
         chat_completion e = Ok (Some content) -> content <> [] ->
         json_parse e content = Some parsed ->
         get_prop parsed (lit "sql") = Some parsed_sql ->
         truthy parsed_sql = true ->
         (forall err,
             sanitizeSql parsed_sql = Err err ->
             decode_completion e = Err (error_message err))
         /\ (forall sql parsed_notes,
             sanitizeSql parsed_sql = Ok sql ->
             get_prop parsed (lit "notes") = Some parsed_notes ->
             decode_completion e
             = Ok (sql, if truthy parsed_notes then parsed_notes
                        else VStr []))).
Proof.
  split; [apply question_required|]. split; [|split].
  - intros q Hq. split; [|intros schema w1 L; split; [|split]].
    + intros msg w1 L.
      now rewrite (post_api_query_paths e req_body q w Hq), buildSql_paths, L.
    + intros msg D.
      rewrite (post_api_query_paths e req_body q w Hq), buildSql_paths, L, D.
      unfold log. simpl. now rewrite <- app_assoc.
    + intros sql notes msg D P.
      rewrite (post_api_query_paths e req_body q w Hq), buildSql_paths, L, D, P.
      unfold log. simpl. now rewrite <- app_assoc.
    + intros sql notes result D P.
      rewrite (post_api_query_paths e req_body q w Hq), buildSql_paths, L, D, P.
      unfold log. simpl. now rewrite <- app_assoc.
  - intros msg C. unfold decode_completion. now rewrite C.
  - intros content parsed v C Hc J G T.
    assert (Tc : truthy_string content = true) by (now destruct content).
    unfold decode_completion. rewrite C, Tc, J, G, T.
    cbv beta iota delta [negb].
    split.
    + intros err S. now rewrite S.
    + intros sql n S N. now rewrite S, N.
Qed.

(** The model answers [drop table users;]: the request is refused with
    the message of the sanitizer and nothing is run. *)
Lemma post_api_query_responses_witness :
  post_api_query drop_table_env list_users_body cold_start =
  ({| status := 400;
      body := ErrorBody (lit "Only SELECT queries are allowed.") |},
   {| cached :=
        {| cachedSchema :=
             Some (render_schema users_orders_columns users_counts);
           cachedSchemaLoadedAt := 1000 |};
      trace :=
        refresh_events
        ++ [ChatCompletion (render_schema users_orders_columns users_counts)
                           (lit "list all users");
            ConsoleError (lit "Only SELECT queries are allowed.")] |}).
Proof.
  destruct (post_api_query_responses drop_table_env list_users_body
              cold_start) as (_ & H & _).
  destruct (H (lit "  list all users ")) as (_ & H2).
  { split; [vm_compute; reflexivity | vm_compute; discriminate]. }
  destruct (H2 (render_schema users_orders_columns users_counts)
               {| cached :=
                    {| cachedSchema :=
                         Some (render_schema users_orders_columns users_counts);
                       cachedSchemaLoadedAt := 1000 |};
                  trace := refresh_events |}) as (H3 & _).
  { vm_compute. reflexivity. }
  rewrite (H3 (lit "Only SELECT queries are allowed.")).
  - vm_compute. reflexivity.
  - vm_compute. reflexivity.
Defined.

(** * Further properties of the sanitizer *)

(** X1: [banned.test(s)] answers true exactly when one of the twelve
    banned words stands in [s] with no word character ([A-Za-z0-9_])
    directly before or after it. *)
Theorem banned_test_whole_word (s : jsstring) :
  Regex.test banned s = true <->
  exists w, In w banned_words /\ whole_word w s.
Proof. exact (banned_test_spec s). Qed.

Lemma endsWith_toLowerCase (t : jsstring) :
  endsWith ";" (toLowerCase t) = endsWith ";" t.
Proof.
  unfold endsWith, toLowerCase. rewrite <- map_rev.
  apply (startsWith_toLowerCase (rev (lit ";")) (rev t)).
  intros a [<- | []]. now left.
Qed.

Lemma strip_semicolon_toLowerCase (t : jsstring) :
  toLowerCase (strip_semicolon t) = strip_semicolon (toLowerCase t).
Proof.
  unfold strip_semicolon. rewrite endsWith_toLowerCase.
  destruct (endsWith ";" t) eqn:E; [|reflexivity].
  apply endsWith_char in E. destruct E as (r & ->).
  unfold slice_0_m1. rewrite toLowerCase_app, removelast_last.
  change (toLowerCase [";"%char]) with [";"%char].
  now rewrite removelast_last.
Qed.

Lemma violates_toLowerCase (q : rule) (s1 s2 : jsstring) :
  toLowerCase s1 = toLowerCase s2 ->
  violates q (VStr s1) = violates q (VStr s2).
Proof.
  intros E.
  assert (T : toLowerCase (trim s1) = toLowerCase (trim s2))
    by now rewrite <- !trim_toLowerCase, E.
  unfold violates, trimmed_text. rewrite T. destruct q; try reflexivity.
  - destruct s1, s2; try reflexivity; discriminate E.
  - rewrite !statements_nstmts.
    rewrite <- (nstmts_toLowerCase (trim s1)), T.
    now rewrite nstmts_toLowerCase.
Qed.

Lemma first_violation_ext (v1 v2 : value) :
  (forall q, violates q v1 = violates q v2) ->
  first_violation v1 = first_violation v2.
Proof.
  intros E. unfold first_violation.
  induction rules_in_order as [|q l IH]; simpl; [reflexivity|].
  now rewrite E, IH.
Qed.

(** X2: the verdict of [sanitizeSql] does not depend on letter case.  Two
    strings with the same lower-cased text are both rejected, with the
    same error, or both accepted, with results that differ in letter case
    only. *)
Theorem sanitize_case_insensitive (s1 s2 : jsstring) :
  toLowerCase s1 = toLowerCase s2 ->
  match sanitizeSql (VStr s1), sanitizeSql (VStr s2) with
  | Ok r1, Ok r2 => toLowerCase r1 = toLowerCase r2
  | Err e1, Err e2 => e1 = e2
  | _, _ => False
  end.
Proof.
  intros E. rewrite !sanitizeSql_first_violation.
  rewrite (first_violation_ext (VStr s1) (VStr s2))
    by (intros q; apply violates_toLowerCase, E).
  destruct (first_violation (VStr s2)); [reflexivity|].
  unfold trimmed_text.
  now rewrite !strip_semicolon_toLowerCase, <- !trim_toLowerCase, E.
Qed.

Lemma sanitize_case_insensitive_witness :
  match sanitizeSql (VStr "SELECT Name FROM Users;"),
        sanitizeSql (VStr "select name from users;") with
  | Ok r1, Ok r2 => toLowerCase r1 = toLowerCase r2
  | Err e1, Err e2 => e1 = e2
  | _, _ => False
  end.
Proof.
  apply (sanitize_case_insensitive (lit "SELECT Name FROM Users;")
           (lit "select name from users;")).
  reflexivity.
Defined.

Lemma trimStart_app_blank (a s : jsstring) :
  blank a = true -> trimStart (a ++ s) = trimStart s.
Proof.
  induction a as [|c a IH]; simpl; [reflexivity|].
  destruct (is_space c); [exact IH | discriminate].
Qed.

Lemma trimEnd_app_blank (s b : jsstring) :
  blank b = true -> trimEnd (s ++ b) = trimEnd s.
Proof.
  intros B. induction s as [|c s IH]; simpl.
  - now apply trimEnd_blank.
  - now rewrite IH.
Qed.

Lemma trim_app_blank (a s b : jsstring) :
  blank a = true -> blank b = true -> trim (a ++ s ++ b) = trim s.
Proof.
  intros A B. unfold trim. rewrite (trimStart_app_blank a _ A).
  destruct (trimStart_split s) as (ws & Hs & Hws).
  destruct (blank s) eqn:S.
  - rewrite (trimStart_blank (s ++ b)) by (now rewrite blank_app, S, B).
    now rewrite (trimStart_blank s S).
  - assert (N : trimStart s <> []).
    { intros N. rewrite N, app_nil_r in Hs. congruence. }
    assert (R : forall x, trimStart (x ++ b) = trimStart x ++ b
                          \/ blank x = true).
    { induction x as [|c x IHx]; simpl; [now right|].
      destruct (is_space c); [exact IHx | now left]. }
    destruct (R s) as [R' | R']; [|congruence].
    rewrite R'. now apply trimEnd_app_blank.
Qed.

(** X3: white space around a text that is not empty changes neither the
    verdict nor the result of [sanitizeSql]. *)
Theorem sanitize_ignores_surrounding_space (a s b : jsstring) :
  s <> [] -> blank a = true -> blank b = true ->
  sanitizeSql (VStr (a ++ s ++ b)) = sanitizeSql (VStr s).
Proof.
  intros Hs A B. rewrite !sanitizeSql_first_violation.
  unfold first_violation, rules_in_order, find, violates, trimmed_text.
  rewrite (trim_app_blank a s b A B).
  destruct s as [|c s]; [now elim Hs|].
  destruct a as [|x a]; reflexivity.
Qed.

Lemma sanitize_ignores_surrounding_space_witness :
  sanitizeSql (VStr (lit "  " ++ lit "select 1;" ++ lit " "))
  = sanitizeSql (VStr "select 1;").
Proof.
  apply (sanitize_ignores_surrounding_space (lit "  ") (lit "select 1;")
           (lit " ")); [discriminate | reflexivity | reflexivity].
Defined.

(** X4: [sanitizeSql] never rewrites the query.  An accepted input is
    white space, then the result, then at most one semicolon, then white
    space; the result is not empty and starts with a code unit that is
    not white space. *)
Theorem sanitize_output_within_input (s r : jsstring) :
  sanitizeSql (VStr s) = Ok r ->
  exists pre post,
    s = pre ++ r ++ post
    /\ blank pre = true
    /\ (blank post = true
        \/ exists ws, post = ";"%char :: ws /\ blank ws = true)
    /\ exists c r', r = c :: r' /\ is_space c = false.
Proof.
  intros H.
  destruct (result_prefix s r H) as (c & r' & _ & Er & Hc & _ & _).
  apply sanitizeSql_ok in H. destruct H as (_ & _ & Hr).
  destruct (trimStart_split s) as (ws1 & H1 & B1).
  destruct (trimEnd_split (trimStart s)) as (ws2 & H2 & B2).
  fold (trim s) in H2.
  destruct (strip_semicolon_cases (trim s)) as [E | E]; rewrite <- Hr in E.
  - exists ws1, ws2. rewrite H1 at 1. rewrite H2, <- E.
    repeat split; auto. now exists c, r'.
  - exists ws1, (";"%char :: ws2). rewrite H1 at 1. rewrite H2, E.
    rewrite <- app_assoc. repeat split; auto.
    + right. now exists ws2.
    + now exists c, r'.
Qed.

Lemma sanitize_output_within_input_witness :
  exists pre post,
    lit "  select 1 ; " = pre ++ lit "select 1 " ++ post
    /\ blank pre = true
    /\ (blank post = true
        \/ exists ws, post = ";"%char :: ws /\ blank ws = true)
    /\ exists c r', lit "select 1 " = c :: r' /\ is_space c = false.
Proof.
  apply (sanitize_output_within_input (lit "  select 1 ; ")
           (lit "select 1 ")).
  reflexivity.
Defined.

(** X5: a result of [sanitizeSql] is itself accepted by [sanitizeSql];
    sanitizing it again drops its trailing white space and one more
    trailing semicolon, if any. *)
Theorem sanitize_output_accepted (s r : jsstring) :
  sanitizeSql (VStr s) = Ok r ->
  sanitizeSql (VStr r) = Ok (strip_semicolon (trimEnd r)).
Proof.
  intros H.
  destruct (result_prefix s r H) as (c & r' & tail & Er & Hc & Et & Ht).
  apply sanitizeSql_ok. split; [now rewrite Er|]. split.
  - intros q _.
    assert (Q : q = NonEmptyString \/ q <> NonEmptyString)
      by (destruct q; auto; right; discriminate).
    destruct Q as [-> | Q]; [now rewrite Er|].
    rewrite <- (violates_filler q r s tail Q Et Ht).
    exact (rules_hold s r q H).
  - unfold trim. now rewrite Er, (trimStart_cons_nonspace c r' Hc).
Qed.

Lemma sanitize_output_accepted_witness :
  sanitizeSql (VStr "select 1 ;")
  = Ok (strip_semicolon (trimEnd (lit "select 1 ;"))).
Proof.
  apply (sanitize_output_accepted (lit " select 1 ;; ")). reflexivity.
Defined.

Lemma nstmts_app_semicolon (a b : jsstring) (cur : bool) :
  nstmts cur (a ++ ";"%char :: b) = nstmts cur a + nstmts false b.
Proof.
  revert cur. induction a as [|c a IH]; intros cur; simpl.
  - reflexivity.
  - destruct (Ascii.eqb c ";"); rewrite IH; lia.
Qed.

(** X6: a select in which a semicolon is followed, anywhere later, by a
    code unit that is neither a semicolon nor white space is rejected
    with MultipleStatements, also when the semicolon stands inside a
    string literal. *)
Theorem text_after_semicolon_is_rejected (s a b : jsstring) (c : ascii) :
  startsWith "select" (toLowerCase (trim s)) = true ->
  trim s = a ++ ";"%char :: b ->
  In c b -> c <> ";"%char -> is_space c = false ->
  sanitizeSql (VStr s) = Err MultipleStatements.
Proof.
  intros Hsel E Hin Hsemi Hsp.
  assert (N : 1 < nstmts false (trim s)).
  { rewrite E, nstmts_app_semicolon.
    assert (1 <= nstmts false b).
    { destruct (nstmts false b) eqn:Z; [|lia].
      pose proof (nstmts_zero_filler b Z) as F.
      rewrite Forall_forall in F. destruct (F c Hin); congruence. }
    assert (1 <= nstmts false a).
    { destruct (select_head _ Hsel) as (x & t' & Et & Hx & Hxs).
      rewrite E in Et. destruct a as [|y a'].
      - injection Et as <- _. now elim Hxs.
      - injection Et as -> _. simpl.
        destruct (Ascii.eqb x ";") eqn:Q.
        + apply Ascii.eqb_eq in Q. now elim Hxs.
        + rewrite Hx. exact (nstmts_lower_bound a' true). }
    lia. }
  rewrite sanitizeSql_first_violation.
  unfold first_violation, rules_in_order, find, violates, trimmed_text.
  destruct s as [|x s]; [discriminate Hsel|].
  rewrite Hsel, statements_nstmts.
  apply Nat.ltb_lt in N. rewrite N. reflexivity.
Qed.

Lemma text_after_semicolon_is_rejected_witness :
  sanitizeSql (VStr "select ';' as sep from t") = Err MultipleStatements.
Proof.
  apply (text_after_semicolon_is_rejected
           (lit "select ';' as sep from t")
           (lit "select '") (lit "' as sep from t") "a"%char).
  - reflexivity.
  - reflexivity.
  - simpl. auto.
  - discriminate.
  - reflexivity.
Defined.

(** X7: [sanitizeSql] fails with SqlMissing exactly on the values that
    are not a string of one code unit at least: [undefined], [null],
    booleans, numbers, arrays, objects and the empty string.  A string
    of white space only is not among them. *)
Theorem sql_missing_iff (sql : value) :
  sanitizeSql sql = Err SqlMissing <->
  (forall c s, sql <> VStr (c :: s)).
Proof.
  rewrite sanitizeSql_first_violation.
  unfold first_violation, rules_in_order, find.
  destruct (violates NonEmptyString sql) eqn:V1.
  - split; [|reflexivity]. intros _ c s ->. discriminate V1.
  - assert (E : exists c s, sql = VStr (c :: s)).
    { destruct sql as [| |b|n|[|c s]|l|f]; try discriminate V1.
      now exists c, s. }
    destruct E as (c & s & E). split.
    + destruct (violates StartsWithSelect sql); [discriminate|].
      destruct (violates SingleStatement sql); [discriminate|].
      destruct (violates NoBannedWord sql); [discriminate|].
      destruct (violates NoComment sql); discriminate.
    + intros H. now elim (H c s).
Qed.

(** * Further properties of the schema snapshotter *)

(** X8: a cached snapshot that is not empty and younger than five
    minutes is returned as it is, with no call to the pool or to the
    database and no change of the cache. *)
Theorem cached_snapshot_is_served (e : env) (w : world) (s : jsstring) :
  cachedSchema (cached w) = Some s -> s <> [] ->
  (date_now e - cachedSchemaLoadedAt (cached w) < SCHEMA_CACHE_MS)%Z ->
  loadSchema e w = (Ok s, w).
Proof. exact (loadSchema_cached e w s). Qed.

Lemma cached_snapshot_is_served_witness :
  loadSchema (failing_columns 299999) stale_world
  = (Ok (lit "public.t: id (integer)"), stale_world).
Proof.
  apply (cached_snapshot_is_served (failing_columns 299999) stale_world).
  - reflexivity.
  - discriminate.
  - reflexivity.
Defined.

(** X9: after a call that went to the database and produced a snapshot
    that is not empty, every call made less than five minutes after it,
    however many, returns that same text and touches neither the
    database nor the cache. *)
Theorem snapshot_served_within_window (e0 : env) (es : list env)
        (w w1 : world) (s : jsstring) :
  cache_hit (date_now e0) (cached w) = None ->
  loadSchema e0 w = (Ok s, w1) -> s <> [] ->
  Forall (fun e => (date_now e - date_now e0 < SCHEMA_CACHE_MS)%Z) es ->
  serve es w1 = (map (fun _ => Ok s) es, w1).
Proof.
  intros C H Hs Hes. induction Hes as [|e es He _ IH]; [reflexivity|].
  simpl. rewrite (loadSchema_twice e0 e w w1 s C H Hs He), IH.
  reflexivity.
Qed.

Lemma snapshot_served_within_window_witness :
  serve [database 2000 []; database 300999 []]
        (snd (loadSchema (database 1000 users_orders_columns) cold_start))
  = (map (fun _ => Ok (render_schema users_orders_columns []))
         [database 2000 []; database 300999 []],
     snd (loadSchema (database 1000 users_orders_columns) cold_start)).
Proof.
  apply (snapshot_served_within_window
           (database 1000 users_orders_columns)
           [database 2000 []; database 300999 []] cold_start).
  - reflexivity.
  - vm_compute. reflexivity.
  - vm_compute. discriminate.
  - repeat constructor.
Defined.

(** X10: the window is closed at five minutes sharp.  A snapshot aged
    300000 ms or more is not served: the call fetches both listings,
    answers with the new text and stores it with the time of the call. *)
Theorem expired_snapshot_is_refreshed (e : env) (w : world) (s : jsstring)
        (cols : list column_row) (counts : list count_row) :
  cachedSchema (cached w) = Some s ->
  (SCHEMA_CACHE_MS <= date_now e - cachedSchemaLoadedAt (cached w))%Z ->
  pool_connect e = Ok tt ->
  columns_query e = Ok cols -> counts_query e = Ok counts ->
  loadSchema e w =
  (Ok (render_schema cols counts),
   {| cached := {| cachedSchema := Some (render_schema cols counts);
                   cachedSchemaLoadedAt := date_now e |};
      trace := trace w ++ refresh_events |}).
Proof.
  intros E Hage. apply loadSchema_refreshed.
  unfold cache_hit. rewrite E. apply Z.ltb_ge in Hage. rewrite Hage.
  now rewrite andb_false_r.
Qed.

Lemma expired_snapshot_is_refreshed_witness :
  loadSchema (database 300000 users_orders_columns) stale_world =
  (Ok (render_schema users_orders_columns []),
   {| cached :=
        {| cachedSchema := Some (render_schema users_orders_columns []);
           cachedSchemaLoadedAt := 300000 |};
      trace := trace stale_world ++ refresh_events |}).
Proof.
  apply (expired_snapshot_is_refreshed
           (database 300000 users_orders_columns) stale_world
           (lit "public.t: id (integer)")); reflexivity || (vm_compute; discriminate).
Defined.

Lemma render_schema_tables_witness :
  render_schema
    (listing_rows
       [ {| tl_schema := "public"; tl_name := "users";
            tl_columns := [(lit "id", lit "integer"); (lit "name", lit "text")] |};
         {| tl_schema := "public"; tl_name := "orders";
            tl_columns := [(lit "id", lit "integer")] |} ])
    users_counts =
  join newline
    (map (table_line users_counts)
       [ {| tl_schema := "public"; tl_name := "users";
            tl_columns := [(lit "id", lit "integer"); (lit "name", lit "text")] |};
         {| tl_schema := "public"; tl_name := "orders";
            tl_columns := [(lit "id", lit "integer")] |} ]).
Proof.
  apply render_schema_tables.
  - vm_compute. repeat constructor; simpl; intuition discriminate.
  - repeat constructor; discriminate.
Defined.

(** X12: the key of a table is its schema, a dot and its name, so two
    tables whose keys read the same ([a.b] with [c], [a] with [b.c])
    are one table to the snapshotter: their columns end up on one line,
    under the annotation of that key. *)
Theorem render_schema_merges_equal_keys (counts : list count_row)
        (t1 t2 : table_listing) :
  key_of t1 = key_of t2 -> tl_columns t1 <> [] ->
  render_schema (rows_of t1 ++ rows_of t2) counts =
  table_line counts
    {| tl_schema := tl_schema t1; tl_name := tl_name t1;
       tl_columns := tl_columns t1 ++ tl_columns t2 |}.
Proof.
  intros K Hne. unfold render_schema, tableMap_of.
  rewrite fold_left_app.
  rewrite (add_table counts [] t1 Hne eq_refl).
  destruct t1 as [schema1 name1 cols1], t2 as [schema2 name2 cols2].
  unfold entry_of, table_line. cbn [tl_schema tl_name tl_columns app] in *.
  assert (K1 : forall cs,
             key_of {| tl_schema := schema1; tl_name := name1;
                       tl_columns := cs |} = table_key schema2 name2)
    by (intros cs; exact K).
  rewrite !K1.
  pose proof (add_columns_next counts [] schema2 name2 cols2
                {| columns := map column_text cols1;
                   meta := meta_of counts (table_key schema2 name2) |}
                eq_refl) as A.
  cbn [app] in A. rewrite A.
  unfold schema_line.
  cbn [map join fst snd columns meta].
  now rewrite map_app.
Qed.

Lemma render_schema_merges_equal_keys_witness :
  render_schema
    (rows_of {| tl_schema := "a.b"; tl_name := "c";
                tl_columns := [(lit "id", lit "integer")] |}
     ++ rows_of {| tl_schema := "a"; tl_name := "b.c";
                   tl_columns := [(lit "x", lit "text")] |})
    [] =
  table_line []
    {| tl_schema := "a.b"; tl_name := "c";
       tl_columns := [(lit "id", lit "integer")] ++ [(lit "x", lit "text")] |}.
Proof.
  apply (render_schema_merges_equal_keys []
           {| tl_schema := "a.b"; tl_name := "c";
              tl_columns := [(lit "id", lit "integer")] |}
           {| tl_schema := "a"; tl_name := "b.c";
              tl_columns := [(lit "x", lit "text")] |}).
  - reflexivity.
  - discriminate.
Defined.

Lemma JsMap_get_set_same {V} (k : jsstring) (v : V) (m : JsMap.t V) :
  JsMap.get k (JsMap.set k v m) = Some v.
Proof.
  induction m as [|[k' v'] m IH]; simpl.
  - now rewrite jsstring_eqb_refl.
  - destruct (jsstring_eqb k k') eqn:E; simpl; rewrite E; [reflexivity | exact IH].
Qed.

Lemma JsMap_get_set_other {V} (k k' : jsstring) (v : V) (m : JsMap.t V) :
  k <> k' -> JsMap.get k (JsMap.set k' v m) = JsMap.get k m.
Proof.
  intros Hk. induction m as [|[k0 v0] m IH]; simpl.
  - now rewrite (jsstring_eqb_neq k k' Hk).
  - destruct (jsstring_eqb k' k0) eqn:E; simpl.
    + apply jsstring_eqb_eq in E. subst k0.
      now rewrite (jsstring_eqb_neq k k' Hk).
    + now rewrite IH.
Qed.

(** X13: when the row-count listing names a table more than once, the
    last row decides: the annotation of a key after one more row is the
    estimate of that row if the row has the key (none for a null
    estimate), and is unchanged otherwise; without any row there is no
    annotation. *)
Theorem estimate_of_last_row (counts : list count_row) (row : count_row)
        (key : jsstring) :
  (key = table_key (cnt_table_schema row) (cnt_table_name row) ->
   meta_of (counts ++ [row]) key = annotation (est_rows row))
  /\ (key <> table_key (cnt_table_schema row) (cnt_table_name row) ->
      meta_of (counts ++ [row]) key = meta_of counts key)
  /\ meta_of [] key = [].
Proof.
  unfold meta_of, countMap_of. rewrite fold_left_app. cbn [fold_left].
  split; [|split; [|reflexivity]].
  - intros ->. rewrite JsMap_get_set_same. now destruct (est_rows row).
  - intros Hk. now rewrite (JsMap_get_set_other _ _ _ _ Hk).
Qed.

Lemma estimate_of_last_row_witness :
  meta_of (users_counts
           ++ [ {| cnt_table_schema := "public"; cnt_table_name := "users";
                   est_rows := Some (lit "7") |} ])
          (lit "public.users")
  = annotation (Some (lit "7")).
Proof.
  apply (proj1 (estimate_of_last_row users_counts
                  {| cnt_table_schema := "public"; cnt_table_name := "users";
                     est_rows := Some (lit "7") |}
                  (lit "public.users"))).
  reflexivity.
Defined.

(** X14: when [pool.connect()] fails during a refresh, the call fails
    with the message of the pool; no query is issued, nothing is
    released, the cache keeps what it held, and a snapshot that is still
    cached but too old is not served in its place. *)
Theorem connect_failure_propagates (e : env) (w : world) (msg : jsstring) :
  cache_hit (date_now e) (cached w) = None ->
  pool_connect e = Err msg ->
  loadSchema e w = (Err msg, log w [PoolConnect]).
Proof.
  intros C P. rewrite loadSchema_paths. now rewrite C, P.
Qed.

Lemma connect_failure_propagates_witness :
  loadSchema (failing_pool 400000) stale_world
  = (Err (lit "too many clients"), log stale_world [PoolConnect]).
Proof.
  apply (connect_failure_propagates (failing_pool 400000) stale_world);
    reflexivity.
Defined.

(** * Further properties of the routes *)

(** X15: [GET /api/schema] answers 200 with the snapshot when
    [loadSchema] succeeds; when it fails the answer is 500 with the fixed
    text "Failed to load schema", whatever the failure was: its message
    goes to the console and never to the client. *)
Theorem get_api_schema_responses (e : env) (w : world) :
  (forall s w1,
      loadSchema e w = (Ok s, w1) ->
      get_api_schema e w = ({| status := 200; body := SchemaBody s |}, w1))
  /\ (forall msg w1,
         loadSchema e w = (Err msg, w1) ->
         get_api_schema e w =
         ({| status := 500;
             body := ErrorBody (lit "Failed to load schema") |},
          log w1 [ConsoleError msg])).
Proof.
  unfold get_api_schema, try_catch, bind, ret, console_error, respond, log.
  split; intros x w1 L; now rewrite L.
Qed.

Lemma get_api_schema_responses_witness :
  get_api_schema (failing_pool 400000) stale_world =
  ({| status := 500; body := ErrorBody (lit "Failed to load schema") |},
   log (log stale_world [PoolConnect])
       [ConsoleError (lit "too many clients")]).
Proof.
  apply (proj2 (get_api_schema_responses (failing_pool 400000) stale_world)).
  reflexivity.
Defined.

(** X16: what [buildSql] throws when the model misbehaves, the schema
    being loaded: "No response from model." for a completion without
    content or with empty content, "Model returned invalid JSON." for
    content [JSON.parse] rejects, "Model did not return SQL." for a JSON
    value whose [sql] is missing or falsy.  In each case the model was
    called once and the sanitizer is not reached. *)
Theorem buildSql_model_failures (e : env) (question : jsstring)
        (w w1 : world) (schema : jsstring) :
  loadSchema e w = (Ok schema, w1) ->
  let w2 := log w1 [ChatCompletion schema question] in
  (chat_completion e = Ok None \/ chat_completion e = Ok (Some []) ->
   buildSql e question w = (Err (lit "No response from model."), w2))
  /\ (forall content,
         chat_completion e = Ok (Some content) -> content <> [] ->
         json_parse e content = None ->
         buildSql e question w = (Err (lit "Model returned invalid JSON."), w2))
  /\ (forall content parsed v,
         chat_completion e = Ok (Some content) -> content <> [] ->
         json_parse e content = Some parsed ->
         get_prop parsed (lit "sql") = Some v -> truthy v = false ->
         buildSql e question w = (Err (lit "Model did not return SQL."), w2)).
Proof.
  intros L w2. rewrite buildSql_paths, L. fold w2.
  unfold decode_completion. split; [|split].
  - intros [C | C]; now rewrite C.
  - intros content C Hc J. rewrite C, J.
    destruct content; [now elim Hc | reflexivity].
  - intros content parsed v C Hc J G T. rewrite C, J, G, T.
    destruct content; [now elim Hc | reflexivity].
Qed.

Lemma buildSql_model_failures_witness :
  buildSql not_json_env (lit "list all users") cold_start =
  (Err (lit "Model returned invalid JSON."),
   log (snd (loadSchema not_json_env cold_start))
       [ChatCompletion (render_schema users_orders_columns users_counts)
                       (lit "list all users")]).
Proof.
  destruct (buildSql_model_failures not_json_env (lit "list all users")
              cold_start
              (snd (loadSchema not_json_env cold_start))
              (render_schema users_orders_columns users_counts))
    as (_ & H & _).
  { vm_compute. reflexivity. }
  apply (H (lit "Sure, here is your query")).
  - reflexivity.
  - discriminate.
  - reflexivity.
Defined.

Lemma sanitizeSql_ok_string (v : value) (sql : jsstring) :
  sanitizeSql v = Ok sql -> exists raw, v = VStr raw.
Proof.
  destruct v as [| |b|n|s|l|f]; try discriminate.
  - destruct b; discriminate.
  - destruct n; discriminate.
  - intros _. now exists s.
Qed.

Lemma buildSql_ok_inv (e : env) (question sql : jsstring)
        (notes : value) (w w1 : world) :
  buildSql e question w = (Ok (sql, notes), w1) ->
  exists content parsed raw,
    chat_completion e = Ok (Some content)
    /\ json_parse e content = Some parsed
    /\ get_prop parsed (lit "sql") = Some (VStr raw)
    /\ sanitizeSql (VStr raw) = Ok sql
    /\ (truthy notes = true \/ notes = VStr []).
Proof.
  rewrite buildSql_paths.
  destruct (loadSchema e w) as [[schema|msg] w0]; [|discriminate].
  unfold decode_completion.
  destruct (chat_completion e) as [[content|]|msg] eqn:C; try discriminate.
  destruct (truthy_string content); cbv beta iota delta [negb];
    [|discriminate].
  destruct (json_parse e content) as [parsed|] eqn:J; [|discriminate].
  destruct (get_prop parsed (lit "sql")) as [v|] eqn:G; [|discriminate].
  destruct (truthy v); cbv beta iota delta [negb]; [|discriminate].
  destruct (sanitizeSql v) as [sql0|err] eqn:S; [|discriminate].
  destruct (get_prop parsed (lit "notes")) as [n|]; [|discriminate].
  intros H. injection H as <- <- _.
  destruct (sanitizeSql_ok_string v sql0 S) as (raw & ->).
  exists content, parsed, raw.
  split; [reflexivity|]. split; [exact J|]. split; [exact G|].
  split; [exact S|].
  destruct (truthy n) eqn:T; [left; exact T | right; reflexivity].
Qed.


Lemma question_cases (req_body : value) :
  (forall q, question_of req_body = VStr q -> trim q = [])
  \/ exists q, valid_question req_body q.
Proof.
  unfold valid_question.
  destruct (question_of req_body) as [| |b|n|q|l|f];
    try (left; intros q' H; discriminate H).
  destruct (trim q) eqn:T.
  - left. intros q' H. injection H as <-. exact T.
  - right. exists q. split; [reflexivity | now rewrite T].
Qed.

Lemma loadSchema_trace (e : env) (w : world) :
  exists evs,
    trace (snd (loadSchema e w)) = trace w ++ evs
    /\ forall sql, ~ In (PoolQuery sql) evs.
Proof.
  rewrite loadSchema_paths.
  destruct (cache_hit (date_now e) (cached w)).
  - exists []. simpl. rewrite app_nil_r. auto.
  - destruct (pool_connect e) as [[]|m].
    + exists refresh_events. split.
      * destruct (columns_query e); [destruct (counts_query e)|]; reflexivity.
      * intros sql [H|[H|[H|[H|[]]]]]; discriminate H.
    + exists [PoolConnect]. split; [reflexivity|].
      intros sql [H|[]]; discriminate H.
Qed.

(** X18: whatever the request, the model and the database answer, every
    text [POST /api/query] hands to [pool.query] is a result of
    [sanitizeSql]: nothing the sanitizer rejected, and nothing it did
    not see, is run. *)
Theorem only_sanitized_sql_is_run (e : env) (req_body : value) (w : world) :
  exists evs,
    trace (snd (post_api_query e req_body w)) = trace w ++ evs
    /\ forall sql,
         In (PoolQuery sql) evs ->
         exists raw, sanitizeSql (VStr raw) = Ok sql.
Proof.
  destruct (question_cases req_body) as [Hq | (q & Hq)].
  - rewrite (question_required e req_body w Hq). exists [].
    simpl. rewrite app_nil_r. split; [reflexivity | intros sql []].
  - rewrite (post_api_query_paths e req_body q w Hq).
    destruct (buildSql e (trim q) w) as [[[sql notes]|msg] w1] eqn:B.
    + destruct (buildSql_ok_inv e (trim q) sql notes w w1 B)
        as (_ & _ & raw & _ & _ & _ & S & _).
      rewrite buildSql_paths in B.
      destruct (loadSchema_trace e w) as (evs & Ht & Hn).
      destruct (loadSchema e w) as [[schema|m] w0]; [|discriminate].
      injection B as _ <-. simpl in Ht.
      destruct (pool_query e sql) as [result|m].
      * exists (evs ++ [ChatCompletion schema (trim q); PoolQuery sql]).
        simpl. rewrite Ht, <- !app_assoc. split; [reflexivity|].
        intros sql' Hin. apply in_app_or in Hin.
        destruct Hin as [Hin | [Hin | [Hin | []]]];
          [now elim (Hn sql') | discriminate Hin |].
        injection Hin as <-. now exists raw.
      * exists (evs ++ [ChatCompletion schema (trim q); PoolQuery sql;
                        ConsoleError m]).
        simpl. rewrite Ht, <- !app_assoc. split; [reflexivity|].
        intros sql' Hin. apply in_app_or in Hin.
        destruct Hin as [Hin | [Hin | [Hin | [Hin | []]]]];
          [now elim (Hn sql') | discriminate Hin | | discriminate Hin].
        injection Hin as <-. now exists raw.
    + rewrite buildSql_paths in B.
      destruct (loadSchema_trace e w) as (evs & Ht & Hn).
      destruct (loadSchema e w) as [[schema|m] w0].
      * injection B as _ <-. simpl in Ht.
        exists (evs ++ [ChatCompletion schema (trim q); ConsoleError msg]).
        simpl. rewrite Ht, <- !app_assoc. split; [reflexivity|].
        intros sql' Hin. apply in_app_or in Hin.
        destruct Hin as [Hin | [Hin | [Hin | []]]];
          [now elim (Hn sql') | discriminate Hin | discriminate Hin].
      * injection B as _ <-. simpl in Ht.
        exists (evs ++ [ConsoleError msg]).
        simpl. rewrite Ht, <- !app_assoc. split; [reflexivity|].
        intros sql' Hin. apply in_app_or in Hin.
        destruct Hin as [Hin | [Hin | []]];
          [now elim (Hn sql') | discriminate Hin].
Qed.

Lemma post_api_query_shape (e : env) (req_body : value) (w : world) :
  let r := fst (post_api_query e req_body w) in
  (status r = 200
   /\ exists sql notes result,
        pool_query e sql = Ok result
        /\ body r = QueryBody sql notes (rows result) (rowCount result))
  \/ (status r = 400 /\ exists msg, body r = ErrorBody msg).
Proof.
  destruct (question_cases req_body) as [Hq | (q & Hq)].
  - rewrite (question_required e req_body w Hq). right. simpl. eauto.
  - rewrite (post_api_query_paths e req_body q w Hq).
    destruct (buildSql e (trim q) w) as [[[sql notes]|msg] w1].
    + destruct (pool_query e sql) as [result|m] eqn:P.
      * left. simpl. split; [reflexivity|]. now exists sql, notes, result.
      * right. simpl. eauto.
    + right. simpl. eauto.
Qed.



(** * Start-up *)

(** X20: the server starts exactly when [OPENAI_API_KEY] and
    [DATABASE_URL] are both set to a string that is not empty; otherwise
    it exits with code 1, naming [OPENAI_API_KEY] whenever that one is
    missing.  Once started, the port is the variable [PORT], or 4000
    when it is unset or empty, and likewise the model name is never
    empty. *)
Theorem startup_requires_both_secrets (getenv : jsstring -> option jsstring) :
  ((exists cfg, startup getenv = Ok cfg) <->
   env_truthy (getenv (lit "OPENAI_API_KEY")) = true
   /\ env_truthy (getenv (lit "DATABASE_URL")) = true)
  /\ (forall msg code,
         startup getenv = Err (msg, code) ->
         code = 1
         /\ (msg = lit "Missing OPENAI_API_KEY in environment." <->
             env_truthy (getenv (lit "OPENAI_API_KEY")) = false))
  /\ (forall cfg,
         startup getenv = Ok cfg ->
         getenv (lit "OPENAI_API_KEY") = Some (OPENAI_API_KEY cfg)
         /\ getenv (lit "DATABASE_URL") = Some (DATABASE_URL cfg)
         /\ truthy (PORT cfg) = true
         /\ (env_truthy (getenv (lit "PORT")) = false -> PORT cfg = VNum 4000)
         /\ OPENAI_MODEL cfg <> []).
Proof.
  unfold startup, env_truthy.
  set (vport := getenv (lit "PORT")).
  set (vmodel := getenv (lit "OPENAI_MODEL")).
  set (vkey := getenv (lit "OPENAI_API_KEY")).
  set (vurl := getenv (lit "DATABASE_URL")).
  clearbody vport vmodel vkey vurl.
  destruct vkey as [key|]; [destruct (truthy_string key) eqn:K|];
    cbv beta iota delta [negb].
  2,3: split; [split; [intros (c & H); discriminate H
                      | intros (H & _); discriminate H]|];
       (split; [|intros c H; discriminate H]);
       intros msg code H; injection H as <- <-; repeat split; auto.
  destruct vurl as [url|]; [destruct (truthy_string url) eqn:U|];
    cbv beta iota delta [negb].
  2,3: split; [split; [intros (c & H); discriminate H
                      | intros (_ & H); discriminate H]|];
       (split; [|intros c H; discriminate H]);
       intros msg code H; injection H as <- <-;
       (split; [reflexivity|]); split; discriminate.
  split; [split; [auto | intros _; eexists; reflexivity]|].
  split; [intros msg code H; discriminate H|].
  intros cfg H. injection H as <-.
  cbn [OPENAI_API_KEY DATABASE_URL PORT OPENAI_MODEL].
  split; [reflexivity|]. split; [reflexivity|].
  split; [|split].
  - destruct vport as [p|]; [destruct (truthy_string p) eqn:P|];
      try reflexivity. exact P.
  - destruct vport as [p|]; [destruct (truthy_string p) eqn:P|];
      try reflexivity. intros H. discriminate H.
  - destruct vmodel as [m|]; [destruct (truthy_string m) eqn:M|];
      try discriminate. destruct m; [discriminate M | discriminate].
Qed.

(** * The browser side *)

Lemma message_or_nonempty (m d : jsstring) :
  d <> [] -> App.message_or m d <> [].
Proof.
  unfold App.message_or. destruct m; simpl; [auto | discriminate].
Qed.

(** X21: [handleAsk] on a question that is empty or white space posts
    nothing and changes the error text only; on any other question it
    posts the question once and, whatever [fetch] and the body of the
    response turn out to be, ends with [loading] off and with either no
    error and a response that was [ok], or an error text that is not
    empty and no rows. *)
Theorem handleAsk_settles (js : App.engine)
        (fetch : value -> App.fetch_result) (st : App.state) :
  (trim (App.question st) = [] ->
   App.handleAsk js fetch st =
   ([],
    {| App.question := App.question st; App.rows := App.rows st;
       App.rowCount := App.rowCount st; App.schema := App.schema st;
       App.loading := App.loading st;
       App.error := lit "Ask a question to get data.";
       App.schemaError := App.schemaError st |}))
  /\ (trim (App.question st) <> [] ->
      let st' := snd (App.handleAsk js fetch st) in
      fst (App.handleAsk js fetch st) = [App.request_body (App.question st)]
      /\ App.loading st' = false
      /\ App.question st' = App.question st
      /\ App.schema st' = App.schema st
      /\ App.schemaError st' = App.schemaError st
      /\ ((App.error st' = []
           /\ exists data,
                fetch (App.request_body (App.question st))
                = App.Reply true (Ok data))
          \/ (App.error st' <> []
              /\ App.rows st' = VArr [] /\ App.rowCount st' = VNum 0))).
Proof.
  unfold App.handleAsk. split.
  - intros T. now rewrite T.
  - intros T. destruct (trim (App.question st)) eqn:E; [now elim T|].
    cbn [truthy_string negb fst snd].
    assert (N : forall m, App.message_or m (lit "Something went wrong") <> [])
      by (intros m; apply message_or_nonempty; discriminate).
    repeat (split; [try reflexivity;
                    match goal with
                    | |- context [match ?o with Ok _ => _ | Err _ => _ end] =>
                        destruct o as [[? ?]|?]; reflexivity
                    end|]).
    destruct (fetch (App.request_body (App.question st)))
      as [m | ok [data | m]].
    + right. cbn. auto.
    + destruct ok; cbn [negb].
      * destruct (get_prop data (lit "rows")) as [r|];
          [destruct (get_prop data (lit "rowCount")) as [c|]|].
        -- left. cbn. split; [reflexivity | now exists data].
        -- right. cbn. auto.
        -- right. cbn. auto.
      * destruct (get_prop data (lit "error")); right; cbn; auto.
    + right. cbn. auto.
Qed.

Lemma handleAsk_settles_witness :
  App.handleAsk plain_engine (fun _ => App.NetworkError [])
    (asking (lit "   ")) =
  ([],
   {| App.question := lit "   "; App.rows := VArr [];
      App.rowCount := VNum 0; App.schema := VStr [];
      App.loading := false;
      App.error := lit "Ask a question to get data.";
      App.schemaError := [] |}).
Proof.
  apply (proj1 (handleAsk_settles plain_engine
                  (fun _ => App.NetworkError []) (asking (lit "   ")))).
  reflexivity.
Defined.

(** X22: the browser and the server agree on what a question is: every
    body [handleAsk] posts passes the validation of [POST /api/query],
    so the answer "Question is required" is never the validation's. *)
Theorem asked_question_is_valid (js : App.engine)
        (fetch : value -> App.fetch_result) (st : App.state)
        (req_body : value) :
  In req_body (fst (App.handleAsk js fetch st)) ->
  valid_question req_body (App.question st).
Proof.
  unfold App.handleAsk.
  destruct (truthy_string (trim (App.question st))) eqn:T;
    cbn [negb fst]; [|intros []].
  intros [<- | []]. split; [reflexivity|].
  intros E. rewrite E in T. discriminate T.
Qed.

Lemma asked_question_is_valid_witness :
  valid_question (App.request_body (lit " list users "))
                 (App.question (asking (lit " list users "))).
Proof.
  apply (asked_question_is_valid plain_engine
           (fun _ => App.NetworkError []) (asking (lit " list users "))).
  left. reflexivity.
Defined.

Lemma error_field (msg : jsstring) :
  get_prop (json_of_body (ErrorBody msg)) (lit "error") = Some (VStr msg).
Proof. reflexivity. Qed.

(** X23: the page against the server.  When the request of [handleAsk]
    reaches [POST /api/query] and the response comes back, the page ends
    either with the rows [pool.query] returned, their count (0 for a
    count that is 0 or null) and no error, or with no rows and the error
    text of the response, "Request failed" standing in for an empty
    one. *)
Theorem ask_end_to_end (js : App.engine) (e : env) (w : world)
        (st : App.state) :
  (forall s, App.to_string js (VStr s) = s) ->
  trim (App.question st) <> [] ->
  let r := fst (post_api_query e (App.request_body (App.question st)) w) in
  let st' := snd (App.handleAsk js (query_server e w) st) in
  (exists sql notes result,
      pool_query e sql = Ok result
      /\ body r = QueryBody sql notes (rows result) (rowCount result)
      /\ App.rows st' = VArr (rows result)
      /\ App.rowCount st' = App.or_else (rowCount result) (VNum 0)
      /\ App.error st' = [])
  \/ (exists msg,
         body r = ErrorBody msg
         /\ App.error st' = App.message_or msg (lit "Request failed")
         /\ App.rows st' = VArr [] /\ App.rowCount st' = VNum 0).
Proof.
  intros S T r st'. subst st'. unfold App.handleAsk, query_server, reply_of.
  destruct (trim (App.question st)) eqn:E; [now elim T|].
  cbn [truthy_string negb snd]. fold r.
  destruct (post_api_query_shape e (App.request_body (App.question st)) w)
    as [(H200 & sql & notes & result & P & B)
       | (H400 & msg & B)]; fold r in H200 || fold r in H400; fold r in B.
  - left. exists sql, notes, result. rewrite H200, B. cbn. auto.
  - right. exists msg. rewrite H400, B.
    rewrite (error_field msg).
    change (negb ((200 <=? 400)%nat && (400 <=? 299)%nat)) with true.
    cbv beta iota. unfold App.or_else.
    destruct msg as [|c msg]; cbn [truthy truthy_string]; rewrite S;
      cbn; auto.
Qed.

Lemma ask_end_to_end_witness :
  let r := fst (post_api_query select_users_env
                  (App.request_body (App.question (asking (lit "list all users"))))
                  cold_start) in
  let st' := snd (App.handleAsk plain_engine
                    (query_server select_users_env cold_start)
                    (asking (lit "list all users"))) in
  (exists sql notes result,
      pool_query select_users_env sql = Ok result
      /\ body r = QueryBody sql notes (rows result) (rowCount result)
      /\ App.rows st' = VArr (rows result)
      /\ App.rowCount st' = App.or_else (rowCount result) (VNum 0)
      /\ App.error st' = [])
  \/ (exists msg,
         body r = ErrorBody msg
         /\ App.error st' = App.message_or msg (lit "Request failed")
         /\ App.rows st' = VArr [] /\ App.rowCount st' = VNum 0).
Proof.
  apply (ask_end_to_end plain_engine select_users_env cold_start
           (asking (lit "list all users"))).
  - reflexivity.
  - discriminate.
Defined.

(** X24: [fetchSchema] touches the schema and its error text only.  It
    ends either with no schema error and the schema of a response that
    was [ok] (the empty string for a schema that is missing or falsy),
    or with an error text that is not empty and the schema shown before
    left in place; a response that is not [ok] always reads "Failed to
    load schema.", whatever its body. *)
Theorem fetchSchema_settles (js : App.engine) (fetch : App.fetch_result)
        (st : App.state) :
  let st' := App.fetchSchema js fetch st in
  App.question st' = App.question st
  /\ App.rows st' = App.rows st
  /\ App.rowCount st' = App.rowCount st
  /\ App.loading st' = App.loading st
  /\ App.error st' = App.error st
  /\ ((App.schemaError st' = []
       /\ exists data v,
            fetch = App.Reply true (Ok data)
            /\ get_prop data (lit "schema") = Some v
            /\ App.schema st' = App.or_else v (VStr []))
      \/ (App.schemaError st' <> [] /\ App.schema st' = App.schema st))
  /\ (forall json,
         fetch = App.Reply false json ->
         App.schemaError st' = lit "Failed to load schema.").
Proof.
  assert (N : forall m, App.message_or m (lit "Unable to fetch schema.") <> [])
    by (intros m; apply message_or_nonempty; discriminate).
  unfold App.fetchSchema.
  destruct fetch as [m | [|] [data | m]].
  - cbn. repeat split; auto. intros json H. discriminate H.
  - destruct (get_prop data (lit "schema")) as [v|] eqn:G; cbn.
    + repeat split; auto; [|intros json H; discriminate H].
      left. split; [reflexivity|]. now exists data, v.
    + repeat split; auto. intros json H. discriminate H.
  - cbn. repeat split; auto. intros json H. discriminate H.
  - cbn. repeat split; auto. right. split; [discriminate | reflexivity].
  - cbn. repeat split; auto. right. split; [discriminate | reflexivity].
Qed.

(** X25: the schema panel against the server.  When the request of
    [fetchSchema] reaches [GET /api/schema] and the response comes back,
    the page shows the snapshot [loadSchema] returned and no schema
    error, or keeps the schema it showed and reads "Failed to load
    schema."; the message of the failure is not shown. *)
Theorem schema_end_to_end (js : App.engine) (e : env) (w : world)
        (st : App.state) :
  let st' := App.fetchSchema js (schema_server e w) st in
  (forall s w1,
      loadSchema e w = (Ok s, w1) ->
      App.schema st' = VStr s /\ App.schemaError st' = [])
  /\ (forall msg w1,
         loadSchema e w = (Err msg, w1) ->
         App.schema st' = App.schema st
         /\ App.schemaError st' = lit "Failed to load schema.").
Proof.
  unfold App.fetchSchema, schema_server, reply_of, get_api_schema, try_catch,
    bind, ret, console_error, respond.
  split; intros x w1 L; rewrite L; cbn.
  - unfold App.or_else. destruct x; auto.
  - auto.
Qed.

Lemma schema_end_to_end_witness :
  App.schema (App.fetchSchema plain_engine
                (schema_server (failing_pool 400000) stale_world)
                (asking []))
  = App.schema (asking [])
  /\ App.schemaError (App.fetchSchema plain_engine
                        (schema_server (failing_pool 400000) stale_world)
                        (asking []))
     = lit "Failed to load schema.".
Proof.
  apply (proj2 (schema_end_to_end plain_engine (failing_pool 400000)
                  stale_world (asking []))
           (lit "too many clients") (log stale_world [PoolConnect])).
  reflexivity.
Defined.
